(** * The realtime session layer: ApiClient interceptors and useWebSocket

    Two pieces of the dashboard client are embedded here:

    - the request/response interceptors installed by the [ApiClient]
      constructor (attach the access token, refresh it on a 401 and resend
      the request once);
    - the [useWebSocket] React hook (one WebSocket per component, reopened
      from the close handler after a fixed delay).

    JavaScript runs every callback to completion on a single thread; an
    [await] is the only place where other callbacks can run.  Asynchronous
    code is therefore written as a resumption: a piece of synchronous state
    passing up to the next [await], and a continuation that receives the
    reply. *)

From stdpp Require Import gmap strings list pretty.

Open Scope string_scope.
Open Scope list_scope.

(** What JavaScript prints for a value that may be [null]/[undefined] when
    it is turned into a string ([setItem], template literals). *)
Definition js_string (absent : string) (v : option string) : string :=
  match v with
  | Some s => s
  | None => absent
  end.

(** Truthiness of a string that may be [null]: [null] and the empty string
    are falsy. *)
Definition truthy (v : option string) : bool :=
  match v with
  | Some s => negb (String.eqb s "")
  | None => false
  end.

(* ===================================================================== *)
(** ** ApiClient: the axios instance and its interceptors *)
(* ===================================================================== *)

Module ApiClient.

Definition API_BASE_URL : string := "http://localhost:8000/api".

(** An axios response: the HTTP status and the decoded body.  A body is
    [None] when it decodes to [null]; otherwise it is an object with string
    fields. *)
Record Response : Type := mkResponse {
  status : Z;
  data : option (gmap string string)
}.

(** An axios request config, with the two fields the interceptors touch:
    [headers.Authorization] and the ad-hoc [_retry] mark. *)
Record Config : Type := mkConfig {
  method : string;
  url : string;
  body : option string;
  Authorization : option string;
  _retry : bool
}.

Definition set_Authorization (v : string) (c : Config) : Config :=
  {| method := method c; url := url c; body := body c;
     Authorization := Some v; _retry := _retry c |}.

Definition set_retry (b : bool) (c : Config) : Config :=
  {| method := method c; url := url c; body := body c;
     Authorization := Authorization c; _retry := b |}.

(** An [AxiosError]: the config of the failed exchange and the response, if
    the server answered at all. *)
Record AxiosError : Type := mkAxiosError {
  config : Config;
  response : option Response
}.

(** What a [catch] clause can receive in the interceptor. *)
Inductive JsError : Type :=
| AxiosErr (e : AxiosError)
| TypeError.

(** The two HTTP exchanges of this file: a request sent through
    [this.client] (the instance with interceptors), and the refresh call
    [axios.post(`${API_BASE_URL}/auth/token/refresh/`, {refresh})] made on
    the global axios, which has no interceptors. *)
Inductive NetCall : Type :=
| Send (c : Config)
| RefreshPost (refresh : option string).

(** The browser state the interceptors read and write, and the list of
    exchanges handed to the network so far. *)
Record World : Type := mkWorld {
  localStorage : gmap string string;
  location_href : string;
  requests : list NetCall
}.

Definition getItem (k : string) (w : World) : option string :=
  localStorage w !! k.

Definition setItem (k v : string) (w : World) : World :=
  {| localStorage := <[k := v]> (localStorage w);
     location_href := location_href w;
     requests := requests w |}.

Definition removeItem (k : string) (w : World) : World :=
  {| localStorage := delete k (localStorage w);
     location_href := location_href w;
     requests := requests w |}.

Definition set_location (href : string) (w : World) : World :=
  {| localStorage := localStorage w;
     location_href := href;
     requests := requests w |}.

Definition issue (call : NetCall) (w : World) : World :=
  {| localStorage := localStorage w;
     location_href := location_href w;
     requests := requests w ++ [call] |}.

(** How a promise returned by the client settles. *)
Inductive Outcome : Type :=
| Resolved (r : Response)
| Rejected (e : JsError).

(** An async computation: finished, or suspended at an [await] on a network
    exchange with the code that runs when the reply arrives ([None] is a
    network failure without response). *)
#[warnings="-register-all"]
Inductive Async : Type :=
| Done (o : Outcome)
| Await (call : NetCall) (k : option Response -> World -> World * Async)
| OutOfFuel.

(** axios settles an exchange with the default [validateStatus]: a status
    in [200, 300) fulfils the promise, anything else rejects it with an
    [AxiosError] that carries the config and the response. *)
Definition settle (c : Config) (reply : option Response)
  : Response + AxiosError :=
  match reply with
  | Some r =>
      if ((200 <=? status r) && (status r <? 300))%Z then inl r
      else inr {| config := c; response := Some r |}
  | None => inr {| config := c; response := None |}
  end.

(** Request interceptor (fulfilled handler). *)
Definition request_interceptor (w : World) (config : Config) : Config :=
  let token := getItem "access_token" w in
  if truthy token
  then set_Authorization ("Bearer " +:+ js_string "null" token) config
  else config.

Definition refresh_config (refreshToken : option string) : Config :=
  {| method := "post";
     url := API_BASE_URL +:+ "/auth/token/refresh/";
     body := refreshToken;
     Authorization := None;
     _retry := false |}.

(** The [catch (refreshError)] clause of the response interceptor. *)
Definition refresh_failed (refreshError : JsError) (w : World)
  : World * Async :=
  let w := removeItem "access_token" w in
  let w := removeItem "refresh_token" w in
  let w := set_location "/auth" w in
  (w, Done (Rejected refreshError)).

(** The [try] block after [await axios.post(...)]: [client] is
    [this.client], the request is resent through all interceptors.  The
    promise of the resent request is returned without [await], so its
    rejection is not seen by the [catch] clause. *)
Definition refresh_settled (client : Config -> World -> World * Async)
    (originalRequest : Config) (refreshToken : option string)
    (reply : option Response) (w : World) : World * Async :=
  match settle (refresh_config refreshToken) reply with
  | inl response =>
      match data response with
      | Some fields =>
          let access := js_string "undefined" (fields !! "access") in
          let w := setItem "access_token" access w in
          let originalRequest :=
            set_Authorization ("Bearer " +:+ access) originalRequest in
          client originalRequest w
      | None => refresh_failed TypeError w
      end
  | inr refreshError => refresh_failed (AxiosErr refreshError) w
  end.

Definition status_is (code : Z) (error : AxiosError) : bool :=
  match response error with
  | Some r => (status r =? code)%Z
  | None => false
  end.

(** Response interceptor (rejected handler). *)
Definition response_rejected (client : Config -> World -> World * Async)
    (error : AxiosError) (w : World) : World * Async :=
  let originalRequest := config error in
  if status_is 401%Z error && negb (_retry originalRequest) then
    let originalRequest := set_retry true originalRequest in
    let refreshToken := getItem "refresh_token" w in
    (issue (RefreshPost refreshToken) w,
     Await (RefreshPost refreshToken)
       (refresh_settled client originalRequest refreshToken))
  else (w, Done (Rejected (AxiosErr error))).

(** The interceptor chain around one exchange, once the reply is in. *)
Definition send_settled (client : Config -> World -> World * Async)
    (config : Config) (reply : option Response) (w : World) : World * Async :=
  match settle config reply with
  | inl response => (w, Done (Resolved response))
  | inr error => response_rejected client error w
  end.

(** [this.client(config)].  The rejected handler calls the client again;
    the [_retry] mark bounds the nesting at two, and [fuel] counts it. *)
Fixpoint client (fuel : nat) (config : Config) (w : World) : World * Async :=
  match fuel with
  | O => (w, OutOfFuel)
  | S fuel' =>
      let config := request_interceptor w config in
      (issue (Send config) w,
       Await (Send config) (send_settled (client fuel') config))
  end.

(** Feed the replies of the network, in order, to a single computation. *)
Fixpoint run (replies : list (option Response)) (st : World * Async)
  : World * Async :=
  match replies with
  | [] => st
  | reply :: rest =>
      match st with
      | (w, Await _ k) => run rest (k reply w)
      | _ => st
      end
  end.

(** One call of the client by a page, against a network that answers with
    [replies]. *)
Definition execute (config : Config) (w : World)
    (replies : list (option Response)) : World * Async :=
  run replies (client 2 config w).

(** Several requests in flight at once: the pending computations, and the
    delivery of a reply to one of them.  Each delivery runs the waiting
    continuation to its next [await]. *)
Definition System : Type := World * list Async.

Definition spawn (config : Config) (sys : System) : System :=
  let '(w, pool) := sys in
  let '(w', t) := client 2 config w in
  (w', pool ++ [t]).

Definition deliver (i : nat) (reply : option Response) (sys : System)
  : System :=
  let '(w, pool) := sys in
  match pool !! i with
  | Some (Await _ k) =>
      let '(w', t') := k reply w in (w', <[i := t']> pool)
  | _ => sys
  end.

Definition is_refresh (call : NetCall) : bool :=
  match call with
  | RefreshPost _ => true
  | Send _ => false
  end.

Definition refresh_calls (w : World) : nat :=
  length (filter (fun c => is_refresh c = true) (requests w)).

Definition sends (w : World) : list Config :=
  omap (fun c => match c with Send cfg => Some cfg | _ => None end)
       (requests w).

(** A burst: every request is handed to the network before any reply is
    in. *)
Definition burst (configs : list Config) (w : World) : System :=
  foldl (fun sys c => spawn c sys) (w, []) configs.

Definition deliver_all (replies : list (nat * Response)) (sys : System)
  : System :=
  foldl (fun sys d => deliver d.1 (Some d.2) sys) sys replies.

(** A request of a burst that waits for the reply to its first send, and
    one that waits for the reply to its own refresh call. *)
Definition awaits_send (c1 : Config) : Async :=
  Await (Send c1) (send_settled (client 1) c1).

Definition awaits_refresh (c1 : Config) (refreshToken : option string)
  : Async :=
  Await (RefreshPost refreshToken)
    (refresh_settled (client 1) (set_retry true c1) refreshToken).

(** Replies, as the interceptors tell them apart. *)
Definition fulfilled (r : Response) : Prop :=
  (200 <= status r < 300)%Z.

Definition unauthorized (r : Response) : Prop :=
  status r = 401%Z.

(** The refresh call fails: no response, a status outside [200, 300), or a
    body from which [access] cannot be read. *)
Definition refresh_fails (reply : option Response) : Prop :=
  match reply with
  | None => True
  | Some r => ~ fulfilled r \/ data r = None
  end.

#[global] Instance fulfilled_dec (r : Response) : Decision (fulfilled r).
Proof. unfold fulfilled. apply _. Defined.

(** What [catch (refreshError)] holds after a refresh call, made with
    [refreshToken], that failed on [reply]: the rejection of [axios.post]
    with the config of that call and the response, if there was one; or,
    when the status is in [200, 300) and the body is [null], the
    [TypeError] of reading [access] from it. *)
Definition refreshError (refreshToken : option string)
    (reply : option Response) : JsError :=
  match reply with
  | None =>
      AxiosErr {| config := refresh_config refreshToken; response := None |}
  | Some r =>
      if decide (fulfilled r) then TypeError
      else AxiosErr {| config := refresh_config refreshToken;
                       response := Some r |}
  end.

(** The promise of the request has settled. *)
Definition finished (st : World * Async) : Prop :=
  exists o, st.2 = Done o.

(** The session-expired signal as the client gives it: the promise of the
    request is rejected with the error [e], both tokens are gone from the
    store and the page is sent to the entry point. *)
Definition SessionExpired (e : JsError) (st : World * Async) : Prop :=
  st.2 = Done (Rejected e) /\
  getItem "access_token" st.1 = None /\
  getItem "refresh_token" st.1 = None /\
  location_href st.1 = "/auth".

(** The data of scenarios A and B: the store holds access A1 and refresh
    R1, and [GET /x] is called. *)
Definition scenario_world : World :=
  {| localStorage := {[ "access_token" := "A1"; "refresh_token" := "R1" ]};
     location_href := "/dashboard";
     requests := [] |}.

Definition GET_x : Config :=
  {| method := "get"; url := "/x"; body := None;
     Authorization := None; _retry := false |}.

Definition reply_401 : Response :=
  {| status := 401%Z; data := None |}.

Definition reply_refreshed : Response :=
  {| status := 200%Z; data := Some {[ "access" := "A2" ]} |}.

(** A refresh response of a server that rotates the refresh value. *)
Definition reply_rotated : Response :=
  {| status := 200%Z;
     data := Some {[ "access" := "A2"; "refresh" := "R2" ]} |}.

Definition reply_ok : Response :=
  {| status := 200%Z; data := Some {[ "ok" := "true" ]} |}.

Definition POST_y : Config :=
  {| method := "post"; url := "/y"; body := Some "{}";
     Authorization := None; _retry := false |}.

End ApiClient.

(* ===================================================================== *)
(** ** useWebSocket: the hook, the browser objects it creates, and React *)
(* ===================================================================== *)

(** The hook body runs once per render.  [isConnected] and
    [reconnectCount] are React state; [wsRef] and [reconnectTimeoutRef]
    are refs, shared by all renders.  [connect] is a closure: it sees the
    [isAuthenticated] and [reconnectCount] of the render that made it, and
    so do the four handlers it installs on the socket and the timer
    callback that [onclose] creates, which calls that same [connect].
    The state setters act on the current state whichever closure calls
    them.

    The browser and React are outside the hook.  They are modelled by the
    events of [step]: a socket opens, delivers a message, fails or closes;
    a timer fires; React renders and runs the effect; the caller uses the
    returned [disconnect] or [sendMessage]. *)

Module UseWebSocket.

(** [WebSocket.readyState]. *)
Inductive ReadyState : Type := CONNECTING | OPEN | CLOSING | CLOSED.

(** A value produced by [JSON.parse]. *)
#[warnings="-register-all"]
Inductive Json : Type :=
| JNull
| JBool (b : bool)
| JNumber (n : Z)
| JString (s : string)
| JArray (items : list Json)
| JObject (fields : list (string * Json)).

(** How a call of the caller's [onMessage] ends, as far as the hook can
    tell. *)
Inductive Completion : Type := Returns | Throws.

(** [UseWebSocketOptions].  [onConnect] and [onDisconnect] are recorded as
    present or absent, and are taken to return normally.  [onMessage] is
    called inside a [try]: it is recorded with the way its call ends on
    each message.  An absent number takes the default of the destructuring
    pattern. *)
Record Options : Type := mkOptions {
  url : string;
  onMessage : option (Json -> Completion);
  onConnect : bool;
  onDisconnect : bool;
  opt_reconnectInterval : option Z;
  opt_maxReconnectAttempts : option Z
}.

Definition reconnectInterval (o : Options) : Z :=
  default 3000%Z (opt_reconnectInterval o).

Definition maxReconnectAttempts (o : Options) : Z :=
  default 10%Z (opt_maxReconnectAttempts o).

(** The constants of one render that [connect] and the handlers it installs
    close over: [useCallback] makes a new [connect] exactly when one of
    them changes ([url] and [maxReconnectAttempts] come from the options,
    which stay fixed here). *)
Record Scope : Type := mkScope {
  scope_isAuthenticated : bool;
  scope_reconnectCount : Z
}.

#[global] Instance Scope_eq_dec : EqDecision Scope.
Proof. solve_decision. Defined.

(** A [WebSocket] object: its target, its state, and the scope of the
    [connect] call that installed [onopen]/[onmessage]/[onerror]/[onclose]
    on it. *)
Record Socket : Type := mkSocket {
  ws_url : string;
  readyState : ReadyState;
  ws_scope : Scope
}.

Inductive TimerState : Type := Pending | Fired | Cleared.

(** A timer made by [setTimeout] in [onclose]: the scope of its callback
    and its delay. *)
Record Timer : Type := mkTimer {
  timer_scope : Scope;
  timer_delay : Z;
  timer_state : TimerState
}.

(** What the hook does to the outside: console output, calls of the
    caller's callbacks, frames sent. *)
Inductive Effect : Type :=
| console_log (what : string)
| console_error (what : string)
| console_warn (what : string)
| call_onMessage (message : Json)
| call_onConnect
| call_onDisconnect
| ws_send (ws : nat) (message : Json).

(** One mounted hook and the browser objects it made.  Sockets and timers
    are numbered in the order of creation. *)
Record Hook : Type := mkHook {
  isConnected : bool;                   (* useState(false) *)
  reconnectCount : Z;                   (* useState(0) *)
  wsRef : option nat;                   (* useRef<WebSocket | null>(null) *)
  reconnectTimeoutRef : option nat;     (* useRef<NodeJS.Timeout>() *)
  store_isAuthenticated : bool;         (* state.auth.isAuthenticated *)
  rendered : option Scope;              (* scope of the memoised connect *)
  sockets : list Socket;
  timers : list Timer;
  localStorage : gmap string string;
  effects : list Effect
}.

Definition set_isConnected (b : bool) (h : Hook) : Hook :=
  mkHook b (reconnectCount h) (wsRef h) (reconnectTimeoutRef h)
    (store_isAuthenticated h) (rendered h) (sockets h) (timers h)
    (localStorage h) (effects h).

Definition set_reconnectCount (n : Z) (h : Hook) : Hook :=
  mkHook (isConnected h) n (wsRef h) (reconnectTimeoutRef h)
    (store_isAuthenticated h) (rendered h) (sockets h) (timers h)
    (localStorage h) (effects h).

Definition set_wsRef (r : option nat) (h : Hook) : Hook :=
  mkHook (isConnected h) (reconnectCount h) r (reconnectTimeoutRef h)
    (store_isAuthenticated h) (rendered h) (sockets h) (timers h)
    (localStorage h) (effects h).

Definition set_reconnectTimeoutRef (r : option nat) (h : Hook) : Hook :=
  mkHook (isConnected h) (reconnectCount h) (wsRef h) r
    (store_isAuthenticated h) (rendered h) (sockets h) (timers h)
    (localStorage h) (effects h).

Definition set_store_isAuthenticated (b : bool) (h : Hook) : Hook :=
  mkHook (isConnected h) (reconnectCount h) (wsRef h) (reconnectTimeoutRef h)
    b (rendered h) (sockets h) (timers h) (localStorage h) (effects h).

Definition set_rendered (s : option Scope) (h : Hook) : Hook :=
  mkHook (isConnected h) (reconnectCount h) (wsRef h) (reconnectTimeoutRef h)
    (store_isAuthenticated h) s (sockets h) (timers h)
    (localStorage h) (effects h).

Definition set_sockets (l : list Socket) (h : Hook) : Hook :=
  mkHook (isConnected h) (reconnectCount h) (wsRef h) (reconnectTimeoutRef h)
    (store_isAuthenticated h) (rendered h) l (timers h)
    (localStorage h) (effects h).

Definition set_timers (l : list Timer) (h : Hook) : Hook :=
  mkHook (isConnected h) (reconnectCount h) (wsRef h) (reconnectTimeoutRef h)
    (store_isAuthenticated h) (rendered h) (sockets h) l
    (localStorage h) (effects h).

Definition emit (e : Effect) (h : Hook) : Hook :=
  mkHook (isConnected h) (reconnectCount h) (wsRef h) (reconnectTimeoutRef h)
    (store_isAuthenticated h) (rendered h) (sockets h) (timers h)
    (localStorage h) (effects h ++ [e]).

(** [cb?.()] for [onConnect] and [onDisconnect]: the callback runs when
    the caller supplied one. *)
Definition optional_call (present : bool) (e : Effect) (h : Hook) : Hook :=
  if present then emit e h else h.

Definition set_readyState (s : ReadyState) (ws : Socket) : Socket :=
  {| ws_url := ws_url ws; readyState := s; ws_scope := ws_scope ws |}.

(** [ws.close()]: a socket that is connecting or open starts closing; on a
    socket already closing or closed the call does nothing.  The close
    event comes later, as an event of its own. *)
Definition close_socket (ws : Socket) : Socket :=
  match readyState ws with
  | CONNECTING | OPEN => set_readyState CLOSING ws
  | CLOSING | CLOSED => ws
  end.

Definition ws_close (id : nat) (h : Hook) : Hook :=
  set_sockets (alter close_socket id (sockets h)) h.

Definition clear_timer (t : Timer) : Timer :=
  match timer_state t with
  | Pending => {| timer_scope := timer_scope t; timer_delay := timer_delay t;
                  timer_state := Cleared |}
  | _ => t
  end.

Definition clearTimeout (id : nat) (h : Hook) : Hook :=
  set_timers (alter clear_timer id (timers h)) h.

Definition new_WebSocket (wsUrl : string) (sc : Scope) (h : Hook)
  : nat * Hook :=
  (length (sockets h),
   set_sockets (sockets h ++
     [{| ws_url := wsUrl; readyState := CONNECTING; ws_scope := sc |}]) h).

Definition setTimeout (sc : Scope) (delay : Z) (h : Hook) : nat * Hook :=
  (length (timers h),
   set_timers (timers h ++
     [{| timer_scope := sc; timer_delay := delay;
         timer_state := Pending |}]) h).

Section hook.

Variable options : Options.
Variable JSON_parse : string -> option Json.

(** [connect], as memoised in the render with scope [sc]. *)
Definition connect (sc : Scope) (h : Hook) : Hook :=
  if negb (scope_isAuthenticated sc) then h
  else
    (* Clean up existing connection *)
    let h := match wsRef h with
             | Some ws => ws_close ws h
             | None => h
             end in
    let token := localStorage h !! "access_token" in
    let wsUrl := url options +:+ "?token=" +:+ js_string "null" token in
    let '(ws, h) := new_WebSocket wsUrl sc h in
    set_wsRef (Some ws) h.

Definition onopen (sc : Scope) (h : Hook) : Hook :=
  let h := emit (console_log "WebSocket connected") h in
  let h := set_isConnected true h in
  let h := set_reconnectCount 0%Z h in
  optional_call (onConnect options) call_onConnect h.

(** The [try] block holds both [JSON.parse] and the call of [onMessage]:
    whichever of the two throws, the [catch] clause logs the same text. *)
Definition onmessage (sc : Scope) (event_data : string) (h : Hook) : Hook :=
  match JSON_parse event_data with
  | Some message =>
      match onMessage options with
      | Some handler =>
          let h := emit (call_onMessage message) h in
          match handler message with
          | Returns => h
          | Throws =>
              emit (console_error "Failed to parse WebSocket message") h
          end
      | None => h
      end
  | None => emit (console_error "Failed to parse WebSocket message") h
  end.

Definition onerror (sc : Scope) (h : Hook) : Hook :=
  emit (console_error "WebSocket error") h.

(** The callback given to [setTimeout] in [onclose].  [connect] here is the
    [connect] of the scope the callback was made in. *)
Definition reconnect (sc : Scope) (h : Hook) : Hook :=
  let h := emit (console_log "Reconnecting...") h in
  let h := set_reconnectCount (reconnectCount h + 1)%Z h in
  connect sc h.

Definition onclose (sc : Scope) (h : Hook) : Hook :=
  let h := emit (console_log "WebSocket disconnected") h in
  let h := set_isConnected false h in
  let h := optional_call (onDisconnect options) call_onDisconnect h in
  (* Attempt reconnection *)
  if (scope_reconnectCount sc <? maxReconnectAttempts options)%Z then
    let '(t, h) := setTimeout sc (reconnectInterval options) h in
    set_reconnectTimeoutRef (Some t) h
  else h.

Definition disconnect (h : Hook) : Hook :=
  let h := match reconnectTimeoutRef h with
           | Some t => clearTimeout t h
           | None => h
           end in
  match wsRef h with
  | Some ws => set_wsRef None (ws_close ws h)
  | None => h
  end.

Definition sendMessage (message : Json) (h : Hook) : Hook :=
  match wsRef h with
  | Some ws =>
      match readyState <$> sockets h !! ws with
      | Some OPEN => emit (ws_send ws message) h
      | _ => emit (console_warn "WebSocket not connected") h
      end
  | None => emit (console_warn "WebSocket not connected") h
  end.

(** One render of the component with its effect.  The scope of the render
    is read from the state; [useCallback] keeps the previous [connect] when
    the scope is the same, and then [useEffect] does nothing.  Otherwise the
    cleanup of the previous effect ([disconnect]) runs, followed by the new
    effect.  The first render has no cleanup to run. *)
Definition render (h : Hook) : Hook :=
  let sc := {| scope_isAuthenticated := store_isAuthenticated h;
               scope_reconnectCount := reconnectCount h |} in
  let effect (h : Hook) :=
    if scope_isAuthenticated sc then connect sc h else h in
  match rendered h with
  | None => effect (set_rendered (Some sc) h)
  | Some previous =>
      if decide (previous = sc) then h
      else effect (set_rendered (Some sc) (disconnect h))
  end.

(** What can happen to a mounted hook: React renders it, the store changes,
    the browser dispatches a socket event or fires a timer, the caller uses
    what the hook returned. *)
Inductive Event : Type :=
| Render
| StoreAuth (b : bool)
| WsOpen (ws : nat)
| WsMessage (ws : nat) (event_data : string)
| WsError (ws : nat)
| WsClose (ws : nat)
| TimerFire (t : nat)
| CallDisconnect
| CallSendMessage (message : Json).

Definition update_socket (ws : nat) (s : ReadyState) (h : Hook) : Hook :=
  set_sockets (alter (set_readyState s) ws (sockets h)) h.

Definition fire_timer (t : Timer) : Timer :=
  {| timer_scope := timer_scope t; timer_delay := timer_delay t;
     timer_state := Fired |}.

(** One event; [None] when the browser cannot produce it in this state (an
    open event on a socket that is not connecting, a message on a socket
    that is not open, anything on a closed socket, a timer that is not
    pending). *)
Definition step (h : Hook) (e : Event) : option Hook :=
  match e with
  | Render => Some (render h)
  | StoreAuth b => Some (set_store_isAuthenticated b h)
  | WsOpen ws =>
      match sockets h !! ws with
      | Some s =>
          match readyState s with
          | CONNECTING => Some (onopen (ws_scope s) (update_socket ws OPEN h))
          | _ => None
          end
      | None => None
      end
  | WsMessage ws event_data =>
      match sockets h !! ws with
      | Some s =>
          match readyState s with
          | OPEN => Some (onmessage (ws_scope s) event_data h)
          | _ => None
          end
      | None => None
      end
  | WsError ws =>
      match sockets h !! ws with
      | Some s =>
          match readyState s with
          | CLOSED => None
          | _ => Some (onerror (ws_scope s) h)
          end
      | None => None
      end
  | WsClose ws =>
      match sockets h !! ws with
      | Some s =>
          match readyState s with
          | CLOSED => None
          | _ => Some (onclose (ws_scope s) (update_socket ws CLOSED h))
          end
      | None => None
      end
  | TimerFire t =>
      match timers h !! t with
      | Some tm =>
          match timer_state tm with
          | Pending =>
              Some (reconnect (timer_scope tm)
                      (set_timers (alter fire_timer t (timers h)) h))
          | _ => None
          end
      | None => None
      end
  | CallDisconnect => Some (disconnect h)
  | CallSendMessage message => Some (sendMessage message h)
  end.

Fixpoint run (events : list Event) (h : Hook) : option Hook :=
  match events with
  | [] => Some h
  | e :: rest =>
      match step h e with
      | Some h' => run rest h'
      | None => None
      end
  end.

End hook.

(** The hook before its first render. *)
Definition initial (authenticated : bool) (storage : gmap string string)
  : Hook :=
  {| isConnected := false; reconnectCount := 0%Z; wsRef := None;
     reconnectTimeoutRef := None; store_isAuthenticated := authenticated;
     rendered := None; sockets := []; timers := [];
     localStorage := storage; effects := [] |}.

(** The connection status of the specification, read off the hook: the
    state of the stream opened last, and [Idle] before any was opened. *)
Inductive Status : Type := Idle | Connecting | Open | Closing | Closed.

Definition status (h : Hook) : Status :=
  match last (sockets h) with
  | None => Idle
  | Some ws =>
      match readyState ws with
      | CONNECTING => Connecting
      | OPEN => Open
      | CLOSING => Closing
      | CLOSED => Closed
      end
  end.

Definition live (ws : Socket) : Prop :=
  readyState ws = CONNECTING \/ readyState ws = OPEN.

Definition pending_timers (h : Hook) : list nat :=
  omap (fun '(i, t) => match timer_state t with
                       | Pending => Some i
                       | _ => None
                       end) (imap pair (timers h)).

(** No stream of the hook is connecting or open. *)
Definition no_live (h : Hook) : Prop :=
  forall i s, sockets h !! i = Some s -> ~ live s.

(** The only stream that can be connecting or open is the one [wsRef]
    points to. *)
Definition one_stream (h : Hook) : Prop :=
  forall i s, sockets h !! i = Some s -> live s -> wsRef h = Some i.

(** How many [WebSocket] objects were made, and how many timers were set:
    the connection attempts and the scheduled reconnections so far. *)
Definition connection_attempts (h : Hook) : nat := length (sockets h).

Definition scheduled_reconnections (h : Hook) : nat := length (timers h).

Definition opened (e : Effect) : bool :=
  match e with
  | call_onConnect => true
  | _ => false
  end.

Definition is_open (e : Event) : bool :=
  match e with
  | WsOpen _ => true
  | _ => false
  end.

(** The store reports an authenticated user. *)
Definition signs_in (e : Event) : bool :=
  match e with
  | StoreAuth true => true
  | _ => false
  end.

(** No stream opens in the course of these events. *)
Definition never_opens (events : list Event) : Prop :=
  forallb (fun e => negb (is_open e)) events = true.

(** The scope of the first render of an authenticated user, and the timer
    that a close handler of that scope sets. *)
Definition first_scope : Scope :=
  {| scope_isAuthenticated := true; scope_reconnectCount := 0%Z |}.

Definition first_scope_timer (options : Options) : Timer :=
  {| timer_scope := first_scope;
     timer_delay := reconnectInterval options;
     timer_state := Pending |}.

(** The hook was last rendered with count [n], and a timer set by a close
    handler of the first scope is pending. *)
Definition storming (options : Options) (n : Z) (h : Hook) : Prop :=
  reconnectCount h = n /\
  store_isAuthenticated h = true /\
  rendered h = Some {| scope_isAuthenticated := true;
                       scope_reconnectCount := n |} /\
  exists t, timers h !! t = Some (first_scope_timer options).

(** A stand-in for [JSON.parse] in the examples: it knows the three
    literals and rejects every other text. *)
Definition parse_literals (text : string) : option Json :=
  if String.eqb text "null" then Some JNull
  else if String.eqb text "true" then Some (JBool true)
  else if String.eqb text "false" then Some (JBool false)
  else None.

(** The message handlers of [useDashboard] and [useAutomations], as the
    hook sees them: both start by reading [message.type], which throws a
    [TypeError] on [null]; on every other JSON value the handler
    returns. *)
Definition handleMessage (message : Json) : Completion :=
  match message with
  | JNull => Throws
  | _ => Returns
  end.

(** The options of scenario C, and the options with both numbers left to
    their defaults. *)
Definition scenario_C : Options :=
  {| url := "ws://localhost:8000/ws/dashboard/";
     onMessage := Some handleMessage;
     onConnect := true; onDisconnect := true;
     opt_reconnectInterval := Some 0%Z;
     opt_maxReconnectAttempts := Some 3%Z |}.

Definition defaults : Options :=
  {| url := "ws://localhost:8000/ws/dashboard/";
     onMessage := Some handleMessage;
     onConnect := true; onDisconnect := true;
     opt_reconnectInterval := None;
     opt_maxReconnectAttempts := None |}.

Definition signed_in : Hook := initial true {[ "access_token" := "A1" ]}.

Definition signed_out : Hook := initial false ∅.

(** Scenario C, every stream failing before it opens.  React renders after
    each timer callback, since the callback changed [reconnectCount]; the
    close event of a stream comes after the render that follows its
    creation.  Sockets and timers are named by their number. *)
Definition failing_streams : list Event :=
  [ Render;                 (* mount: socket 0 *)
    WsError 0; WsClose 0;   (* timer 0 *)
    TimerFire 0;            (* count 1, socket 1 *)
    Render;                 (* cleanup closes socket 1; socket 2 *)
    WsClose 1;              (* timer 1 *)
    WsError 2; WsClose 2;   (* timer 2 *)
    TimerFire 1;            (* count 2, socket 3 *)
    Render;                 (* cleanup clears timer 2; socket 4 *)
    WsClose 3;              (* timer 3 *)
    WsError 4; WsClose 4;   (* timer 4 *)
    TimerFire 3;            (* count 3, socket 5 *)
    Render;                 (* cleanup clears timer 4; socket 6 *)
    WsClose 5;              (* timer 5 *)
    WsError 6; WsClose 6;   (* no timer: 3 < 3 fails *)
    TimerFire 5 ]%nat.      (* count 4, socket 7 *)

(** The same scenario when each stream fails at once, before React gets to
    render. *)
Definition failing_streams_at_once : list Event :=
  [ Render;                 (* mount: socket 0 *)
    WsError 0; WsClose 0;   (* timer 0 *)
    TimerFire 0;            (* count 1, socket 1 *)
    WsError 1; WsClose 1;   (* timer 1 *)
    Render;                 (* cleanup clears timer 1; socket 2 *)
    WsError 2; WsClose 2;   (* timer 2 *)
    TimerFire 2;            (* count 2, socket 3 *)
    WsError 3; WsClose 3;   (* timer 3 *)
    Render;                 (* cleanup clears timer 3; socket 4 *)
    WsError 4; WsClose 4;   (* timer 4 *)
    TimerFire 4;            (* count 3, socket 5 *)
    WsError 5; WsClose 5;   (* timer 5 *)
    Render;                 (* cleanup clears timer 5; socket 6 *)
    WsError 6; WsClose 6 ]%nat.  (* no timer *)

(** Scenario D: the channel opens, and the caller disconnects. *)
Definition open_then_disconnect : list Event :=
  [ Render; WsOpen 0; Render; CallDisconnect ]%nat.

End UseWebSocket.

(* ===================================================================== *)
(** ** ApiClient: the methods built on the client *)
(* ===================================================================== *)

Module ApiMethods.
Import ApiClient.

(** An [async] method of the class: it has returned, it has thrown (its
    promise is rejected), or it is suspended in its [await] on the
    client. *)
#[warnings="-register-all"]
Inductive Call (A : Type) : Type :=
| Returned (a : A)
| Thrown (e : JsError)
| Suspended (call : NetCall)
    (k : option Response -> World -> World * Call A)
| Stuck.

Arguments Returned {A} a.
Arguments Thrown {A} e.
Arguments Suspended {A} call k.
Arguments Stuck {A}.

Definition settled {A : Type} (result : A + JsError) : Call A :=
  match result with
  | inl a => Returned a
  | inr e => Thrown e
  end.

(** [const response = await promise; body]: the rest of the method runs
    once the promise of the client has resolved; a rejection is thrown out
    of the method. *)
Fixpoint await {A : Type} (promise : Async)
    (body : Response -> World -> World * (A + JsError)) (w : World)
  : World * Call A :=
  match promise with
  | Done (Resolved response) =>
      let '(w, result) := body response w in (w, settled result)
  | Done (Rejected e) => (w, Thrown e)
  | Await call k =>
      (w, Suspended call
            (fun reply w => let '(w, promise) := k reply w in
                            await promise body w))
  | OutOfFuel => (w, Stuck)
  end.

(** The config that [this.client.get/post/delete(url, data)] hands to the
    interceptors: no [Authorization] header and no [_retry] mark yet. *)
Definition request (verb path : string) (payload : option string) : Config :=
  {| method := verb; url := path; body := payload;
     Authorization := None; _retry := false |}.

(** The body [{ email, password }], written without quotes. *)
Definition credentials (email password : string) : string :=
  "{email:" +:+ email +:+ ",password:" +:+ password +:+ "}".

Definition login (email password : string) (w : World)
  : World * Call (gmap string string) :=
  let '(w, promise) :=
    client 2 (request "post" "/auth/token/"
                (Some (credentials email password))) w in
  await promise
    (fun response w =>
       match data response with
       | Some fields =>
           let access := js_string "undefined" (fields !! "access") in
           let refresh := js_string "undefined" (fields !! "refresh") in
           let w := setItem "access_token" access w in
           let w := setItem "refresh_token" refresh w in
           (w, inl fields)
       | None => (w, inr TypeError)
       end) w.

Definition register (form : string) (w : World)
  : World * Call (option (gmap string string)) :=
  let '(w, promise) :=
    client 2 (request "post" "/auth/register/" (Some form)) w in
  await promise (fun response w => (w, inl (data response))) w.

Definition logout (w : World) : World * Call unit :=
  let w := removeItem "access_token" w in
  let w := removeItem "refresh_token" w in
  (w, Returned tt).

(** The methods that fetch: a [get] and the body of its response. *)
Definition get_data (path : string) (w : World)
  : World * Call (option (gmap string string)) :=
  let '(w, promise) := client 2 (request "get" path None) w in
  await promise (fun response w => (w, inl (data response))) w.

Definition getInstagramAccounts : World ->
    World * Call (option (gmap string string)) :=
  get_data "/instagram-accounts/".

Definition getAutomation (id : string) : World ->
    World * Call (option (gmap string string)) :=
  get_data ("/automations/" +:+ id +:+ "/").

Definition getAutomationPerformance : World ->
    World * Call (option (gmap string string)) :=
  get_data "/analytics/automations/".

Definition getAIProviders : World ->
    World * Call (option (gmap string string)) :=
  get_data "/ai-providers/status/".

(** The methods that only wait: the response is dropped. *)
Definition deleteAutomation (id : string) (w : World) : World * Call unit :=
  let '(w, promise) :=
    client 2 (request "delete" ("/automations/" +:+ id +:+ "/") None) w in
  await promise (fun response w => (w, inl tt)) w.

Definition disconnectInstagramAccount (id : string) (w : World)
  : World * Call unit :=
  let '(w, promise) :=
    client 2 (request "delete"
                ("/instagram-accounts/" +:+ id +:+ "/disconnect/") None) w in
  await promise (fun response w => (w, inl tt)) w.

(** Feed the replies of the network, in order, to a method. *)
Fixpoint run_call {A : Type} (replies : list (option Response))
    (st : World * Call A) : World * Call A :=
  match replies with
  | [] => st
  | reply :: rest =>
      match st with
      | (w, Suspended _ k) => run_call rest (k reply w)
      | _ => st
      end
  end.

(** A token response of the login endpoint. *)
Definition reply_tokens : Response :=
  {| status := 200%Z;
     data := Some {[ "access" := "A1"; "refresh" := "R1" ]} |}.

Definition signed_out_world : World :=
  {| localStorage := ∅; location_href := "/auth"; requests := [] |}.

End ApiMethods.

(* ===================================================================== *)
(** ** useWebSocket: the shape of the states the hook can be in *)
(* ===================================================================== *)

Module HookShape.
Import UseWebSocket.

(** A scope the hook can have rendered a stream or a timer in. *)
Definition connecting_scope (sc : Scope) : Prop :=
  scope_isAuthenticated sc = true /\ (0 <= scope_reconnectCount sc)%Z.

(** The refs point to objects that exist, the count is not negative,
    every stream was made by the [connect] of an authenticated render, and
    every timer was set by a close handler whose own count was below the
    maximum, with the configured delay. *)
Definition well_formed (options : Options) (h : Hook) : Prop :=
  (0 <= reconnectCount h)%Z /\
  (forall ws, wsRef h = Some ws -> (ws < length (sockets h))%nat) /\
  (forall t, reconnectTimeoutRef h = Some t -> (t < length (timers h))%nat) /\
  (forall sc, rendered h = Some sc -> (0 <= scope_reconnectCount sc)%Z) /\
  Forall (fun s => connecting_scope (ws_scope s)) (sockets h) /\
  Forall (fun t => connecting_scope (timer_scope t) /\
                   (scope_reconnectCount (timer_scope t)
                      < maxReconnectAttempts options)%Z /\
                   timer_delay t = reconnectInterval options) (timers h).

Definition is_send (e : Effect) : bool :=
  match e with
  | ws_send _ _ => true
  | _ => false
  end.

Definition is_sendMessage (e : Event) : bool :=
  match e with
  | CallSendMessage _ => true
  | _ => false
  end.


(** [h'] has the effects of [h] and then some, none of them a frame
    sent. *)
Definition logs_more (h h' : Hook) : Prop :=
  exists added,
    effects h' = effects h ++ added /\
    forallb (fun e => negb (is_send e)) added = true.

(** A server that comes back after one failed attempt: the first stream
    fails, the retry opens, React renders, the stream made by that render
    opens as well. *)
Definition recovered : list Event :=
  [ Render; WsClose 0; TimerFire 0; Render;
    WsOpen 2; Render; WsOpen 3 ]%nat.

End HookShape.

(* ===================================================================== *)
(** ** themeSlice and useTheme: the colour mode *)
(* ===================================================================== *)

Module ThemeSlice.

(** [ThemeState].  The type says ['light' | 'dark'], but the saved value
    is read with a cast, so at run time a mode is any text. *)
Record ThemeState : Type := mkThemeState {
  mode : string;
  systemPreference : string
}.

(** What the slice touches in the browser: [localStorage], the classes of
    [document.documentElement], and the answer of
    [matchMedia('(prefers-color-scheme: dark)')]. *)
Record Browser : Type := mkBrowser {
  storage : gmap string string;
  classList : gset string;
  prefers_dark : bool
}.

Definition getSystemTheme (b : Browser) : string :=
  if prefers_dark b then "dark" else "light".

Definition getSavedTheme (b : Browser) : string :=
  let saved := storage b !! "theme" in
  if truthy saved then js_string "null" saved else getSystemTheme b.

Definition initialState (b : Browser) : ThemeState :=
  {| mode := getSavedTheme b; systemPreference := getSystemTheme b |}.

(** [classList.toggle(name, force)]. *)
Definition classList_toggle (name : string) (force : bool)
    (classes : gset string) : gset string :=
  if force then classes ∪ {[name]} else classes ∖ {[name]}.

(** The two statements that end [toggleTheme] and [setTheme]. *)
Definition save_and_apply (m : string) (b : Browser) : Browser :=
  {| storage := <["theme" := m]> (storage b);
     classList := classList_toggle "dark" (String.eqb m "dark")
                    (classList b);
     prefers_dark := prefers_dark b |}.

Definition toggleTheme (st : ThemeState) (b : Browser)
  : ThemeState * Browser :=
  let m := if String.eqb (mode st) "light" then "dark" else "light" in
  ({| mode := m; systemPreference := systemPreference st |},
   save_and_apply m b).

Definition setTheme (payload : string) (st : ThemeState) (b : Browser)
  : ThemeState * Browser :=
  ({| mode := payload; systemPreference := systemPreference st |},
   save_and_apply payload b).

Definition setSystemPreference (payload : string) (st : ThemeState)
    (b : Browser) : ThemeState * Browser :=
  ({| mode := mode st; systemPreference := payload |}, b).

Inductive Action : Type :=
| ToggleTheme
| SetTheme (payload : string)
| SetSystemPreference (payload : string).

Definition reducer (sb : ThemeState * Browser) (a : Action)
  : ThemeState * Browser :=
  match a with
  | ToggleTheme => toggleTheme sb.1 sb.2
  | SetTheme payload => setTheme payload sb.1 sb.2
  | SetSystemPreference payload => setSystemPreference payload sb.1 sb.2
  end.

(** The first statement of the effect of [useTheme]: apply the theme on
    mount. *)
Definition useTheme_effect (st : ThemeState) (b : Browser) : Browser :=
  {| storage := storage b;
     classList := classList_toggle "dark" (String.eqb (mode st) "dark")
                    (classList b);
     prefers_dark := prefers_dark b |}.

(** An action that writes the mode to the store with a text that reads
    back as a mode. *)
Definition saves (a : Action) : Prop :=
  match a with
  | ToggleTheme => True
  | SetTheme payload => payload <> ""
  | SetSystemPreference _ => False
  end.

Definition valid_mode (m : string) : Prop := m = "light" \/ m = "dark".

End ThemeSlice.

(* ===================================================================== *)
(** ** uiSlice: the sidebar, the settings panel and the notifications *)
(* ===================================================================== *)

Module UiSlice.

Record Notification : Type := mkNotification {
  id : string;
  type : string;
  message : string
}.

#[global] Instance Notification_eq_dec : EqDecision Notification.
Proof. solve_decision. Defined.

Record UIState : Type := mkUIState {
  sidebar_isOpen : bool;
  sidebar_isCollapsed : bool;
  settings_isOpen : bool;
  settings_activeTab : string;
  notifications : list Notification
}.

Definition initialState : UIState :=
  {| sidebar_isOpen := false; sidebar_isCollapsed := false;
     settings_isOpen := false; settings_activeTab := "general";
     notifications := [] |}.

Definition set_notifications (l : list Notification) (st : UIState)
  : UIState :=
  {| sidebar_isOpen := sidebar_isOpen st;
     sidebar_isCollapsed := sidebar_isCollapsed st;
     settings_isOpen := settings_isOpen st;
     settings_activeTab := settings_activeTab st;
     notifications := l |}.

Definition toggleSidebar (st : UIState) : UIState :=
  {| sidebar_isOpen := negb (sidebar_isOpen st);
     sidebar_isCollapsed := sidebar_isCollapsed st;
     settings_isOpen := settings_isOpen st;
     settings_activeTab := settings_activeTab st;
     notifications := notifications st |}.

Definition closeSidebar (st : UIState) : UIState :=
  {| sidebar_isOpen := false;
     sidebar_isCollapsed := sidebar_isCollapsed st;
     settings_isOpen := settings_isOpen st;
     settings_activeTab := settings_activeTab st;
     notifications := notifications st |}.

Definition set_settings_isOpen (b : bool) (st : UIState) : UIState :=
  {| sidebar_isOpen := sidebar_isOpen st;
     sidebar_isCollapsed := sidebar_isCollapsed st;
     settings_isOpen := b;
     settings_activeTab := settings_activeTab st;
     notifications := notifications st |}.

Definition openSettings : UIState -> UIState := set_settings_isOpen true.

Definition closeSettings : UIState -> UIState := set_settings_isOpen false.

Definition setSettingsTab (payload : string) (st : UIState) : UIState :=
  {| sidebar_isOpen := sidebar_isOpen st;
     sidebar_isCollapsed := sidebar_isCollapsed st;
     settings_isOpen := settings_isOpen st;
     settings_activeTab := payload;
     notifications := notifications st |}.

(** [addNotification]: the id is [Date.now().toString()], and [now] is
    what [Date.now()] returns at the call. *)
Definition addNotification (now : Z) (kind text : string) (st : UIState)
  : UIState :=
  set_notifications
    (notifications st ++
       [{| id := pretty now; type := kind; message := text |}]) st.

Definition removeNotification (payload : string) (st : UIState) : UIState :=
  set_notifications
    (filter (fun n => id n <> payload) (notifications st)) st.

End UiSlice.

(* ===================================================================== *)
(** ** Properties of the ApiClient interceptors *)
(* ===================================================================== *)

Module ApiClientProofs.
Import ApiClient.

Lemma settle_fulfilled (c : Config) (r : Response) :
  fulfilled r -> settle c (Some r) = inl r.
Proof.
  unfold fulfilled, settle. intros [Hlo Hhi].
  apply Z.leb_le in Hlo. apply Z.ltb_lt in Hhi.
  by rewrite Hlo, Hhi.
Qed.

Lemma settle_unauthorized (c : Config) (r : Response) :
  unauthorized r ->
  settle c (Some r) = inr {| config := c; response := Some r |}.
Proof. unfold unauthorized, settle. by intros ->. Qed.

Lemma settle_not_fulfilled (c : Config) (r : Response) :
  ~ fulfilled r ->
  settle c (Some r) = inr {| config := c; response := Some r |}.
Proof.
  unfold fulfilled, settle. intros Hno.
  destruct (200 <=? status r)%Z eqn:Hlo; [|done].
  destruct (status r <? 300)%Z eqn:Hhi; [|done].
  apply Z.leb_le in Hlo. apply Z.ltb_lt in Hhi. lia.
Qed.

Lemma request_interceptor_retry (w : World) (c : Config) :
  _retry (request_interceptor w c) = _retry c.
Proof. unfold request_interceptor. by destruct (truthy _). Qed.

(** The request interceptor only looks at the store. *)
Lemma request_interceptor_storage (w1 w2 : World) (c : Config) :
  localStorage w1 = localStorage w2 ->
  request_interceptor w1 c = request_interceptor w2 c.
Proof. unfold request_interceptor, getItem. by intros ->. Qed.

(** Resending after a refresh: the header written by the rejected handler
    is the one the request interceptor would write. *)
Lemma request_interceptor_after_refresh (w : World) (c : Config)
    (access : string) :
  request_interceptor (setItem "access_token" access w)
    (set_Authorization ("Bearer " +:+ access) c)
  = set_Authorization ("Bearer " +:+ access) c.
Proof.
  unfold request_interceptor, getItem, setItem. simpl.
  rewrite lookup_insert_eq. simpl.
  by destruct (negb _).
Qed.

(** The first 401 on a request that was not retried starts the refresh. *)
Lemma send_settled_unauthorized (retry : Config -> World -> World * Async)
    (c : Config) (r : Response) (w : World) :
  _retry c = false -> unauthorized r ->
  send_settled retry c (Some r) w =
    (issue (RefreshPost (getItem "refresh_token" w)) w,
     Await (RefreshPost (getItem "refresh_token" w))
       (refresh_settled retry (set_retry true c)
          (getItem "refresh_token" w))).
Proof.
  intros Hfresh H401. unfold send_settled.
  rewrite settle_unauthorized by done.
  unfold response_rejected, status_is. simpl.
  rewrite H401, Hfresh. done.
Qed.

(** A 401 on a request that carries the [_retry] mark is passed on. *)
Lemma send_settled_retried (retry : Config -> World -> World * Async)
    (c : Config) (r : Response) (w : World) :
  _retry c = true -> ~ fulfilled r ->
  send_settled retry c (Some r) w =
    (w, Done (Rejected (AxiosErr {| config := c; response := Some r |}))).
Proof.
  intros Hretried Hno. unfold send_settled.
  rewrite settle_not_fulfilled by done.
  unfold response_rejected. simpl. rewrite Hretried.
  by rewrite andb_false_r.
Qed.

Lemma unauthorized_not_fulfilled (r : Response) :
  unauthorized r -> ~ fulfilled r.
Proof. unfold unauthorized, fulfilled. lia. Qed.

(** The state of a fresh request after its first 401: one send and one
    refresh call are out, and the request waits for the refresh. *)
Lemma execute_first_unauthorized (c : Config) (w : World) (r1 : Response) :
  _retry c = false -> unauthorized r1 ->
  execute c w [Some r1] =
    (issue (RefreshPost (getItem "refresh_token" w))
       (issue (Send (request_interceptor w c)) w),
     Await (RefreshPost (getItem "refresh_token" w))
       (refresh_settled (client 1)
          (set_retry true (request_interceptor w c))
          (getItem "refresh_token" w))).
Proof.
  intros Hfresh H401. unfold execute. simpl.
  rewrite send_settled_unauthorized;
    [done | by rewrite request_interceptor_retry | done].
Qed.

Lemma execute_app (c : Config) (w : World)
    (replies more : list (option Response)) :
  execute c w (replies ++ more) = run more (execute c w replies).
Proof.
  unfold execute. generalize (client 2 c w).
  induction replies as [|reply replies IH]; intros st; simpl.
  - done.
  - destruct st as [w' [o|call k|]]; simpl;
      [by destruct more | apply IH | by destruct more].
Qed.

Lemma run_done (replies : list (option Response)) (w : World) (o : Outcome) :
  run replies (w, Done o) = (w, Done o).
Proof. by destruct replies. Qed.

(** *** The client always returns *)

Lemma client_S (n : nat) (c : Config) (w : World) :
  client (S n) c w =
    (issue (Send (request_interceptor w c)) w,
     Await (Send (request_interceptor w c))
       (send_settled (client n) (request_interceptor w c))).
Proof. reflexivity. Qed.

Lemma run_finished (replies : list (option Response)) (st : World * Async) :
  finished st -> finished (run replies st) /\ (run replies st).1 = st.1.
Proof.
  intros [o Ho]. destruct st as [w t]. simpl in Ho. subst t.
  rewrite run_done. split; [by exists o|done].
Qed.

Lemma settle_config (c : Config) (reply : option Response) (e : AxiosError) :
  settle c reply = inr e -> config e = c.
Proof.
  unfold settle. intros Hs.
  destruct reply as [r|]; [destruct (_ && _)|]; by simplify_eq.
Qed.

(** A request that carries the [_retry] mark is settled by its reply,
    whatever the reply is, and the handlers touch nothing. *)
Lemma retried_settles (retry : Config -> World -> World * Async)
    (c : Config) (reply : option Response) (w : World) :
  _retry c = true ->
  finished (send_settled retry c reply w) /\
  (send_settled retry c reply w).1 = w.
Proof.
  intros Hr. unfold send_settled, response_rejected.
  destruct (settle c reply) as [r|e] eqn:Hs.
  - split; [by eexists|done].
  - rewrite (settle_config _ _ _ Hs), Hr, andb_false_r.
    split; [by eexists|done].
Qed.

(** Whatever the network answers, the nesting of [this.client] inside its
    own rejected handler stops at the resend: the fuel of [execute] is
    never used up, and the exchanges of one request are an initial part of
    send, refresh, send. *)
Lemma execute_exchanges (c : Config) (w : World)
    (replies : list (option Response)) :
  (execute c w replies).2 <> OutOfFuel /\
  exists c1 tok c2 done,
    done `prefix_of` [Send c1; RefreshPost tok; Send c2] /\
    requests (execute c w replies).1 = requests w ++ done.
Proof.
  unfold execute. rewrite (client_S 1).
  set (c1 := request_interceptor w c). set (w1 := issue (Send c1) w).
  assert (Hone : [Send c1] `prefix_of` [Send c1; RefreshPost None; Send c1])
    by (by eexists [_; _]).
  destruct replies as [|r1 rest].
  { split; [done|]. by exists c1, None, c1, [Send c1]. }
  cbn [run].
  destruct (_retry c1) eqn:Hretry.
  { destruct (retried_settles (client 1) c1 r1 w1 Hretry) as [Hfin Hw].
    destruct (run_finished rest _ Hfin) as [[o Ho] Hw'].
    rewrite Ho, Hw', Hw. split; [done|].
    by exists c1, None, c1, [Send c1]. }
  unfold send_settled, response_rejected.
  destruct (settle c1 r1) as [r|e] eqn:Hs.
  { rewrite run_done. split; [done|]. by exists c1, None, c1, [Send c1]. }
  rewrite (settle_config _ _ _ Hs), Hretry.
  destruct (status_is 401 e); cbn [andb negb].
  2:{ rewrite run_done. split; [done|]. by exists c1, None, c1, [Send c1]. }
  set (tok := getItem "refresh_token" w1). set (w2 := issue _ w1).
  assert (Htwo : forall c2,
            requests w2 = requests w ++ [Send c1; RefreshPost tok]
            /\ [Send c1; RefreshPost tok]
                 `prefix_of` [Send c1; RefreshPost tok; Send c2]).
  { intros c2. split; [simpl; by rewrite <- app_assoc | by eexists [_]]. }
  destruct rest as [|r2 rest].
  { split; [done|]. exists c1, tok, c1, [Send c1; RefreshPost tok].
    by destruct (Htwo c1). }
  cbn [run]. unfold refresh_settled.
  assert (Hcatch : forall err,
    (run rest (refresh_failed err w2)).2 <> OutOfFuel /\
    exists c1 tok c2 done,
      done `prefix_of` [Send c1; RefreshPost tok; Send c2] /\
      requests (run rest (refresh_failed err w2)).1 = requests w ++ done).
  { intros err. unfold refresh_failed. rewrite run_done. split; [done|].
    exists c1, tok, c1, [Send c1; RefreshPost tok].
    by destruct (Htwo c1). }
  destruct (settle (refresh_config tok) r2) as [rr|err]; [|apply Hcatch].
  destruct (data rr) as [fields|]; [|apply Hcatch].
  rewrite (client_S 0).
  set (w3 := setItem _ _ w2). set (c2 := request_interceptor w3 _).
  assert (_retry c2 = true) as Hretry2.
  { unfold c2. by rewrite request_interceptor_retry. }
  assert (Hthree : requests (issue (Send c2) w3) =
            requests w ++ [Send c1; RefreshPost tok; Send c2]).
  { simpl. by rewrite <- !app_assoc. }
  destruct rest as [|r3 rest].
  { split; [done|].
    by exists c1, tok, c2, [Send c1; RefreshPost tok; Send c2]. }
  cbn [run].
  destruct (retried_settles (client 0) c2 r3 (issue (Send c2) w3) Hretry2)
    as [Hfin Hw].
  destruct (run_finished rest _ Hfin) as [[o Ho] Hw'].
  rewrite Ho, Hw', Hw. split; [done|].
  by exists c1, tok, c2, [Send c1; RefreshPost tok; Send c2].
Qed.

(** One request makes at most one refresh call and is sent at most twice,
    whatever the network answers. *)
Lemma execute_at_most_one_refresh (c : Config) (w : World)
    (replies : list (option Response)) :
  (refresh_calls (execute c w replies).1 <= S (refresh_calls w))%nat /\
  (length (sends (execute c w replies).1) <= 2 + length (sends w))%nat.
Proof.
  destruct (execute_exchanges c w replies)
    as (_ & c1 & tok & c2 & done & [rest Hpre] & Hreq).
  unfold refresh_calls, sends. rewrite Hreq.
  rewrite filter_app, omap_app, !length_app.
  destruct done as [|a [|b [|d [|? ?]]]]; simplify_eq/=; lia.
Qed.

(** After the 401 and a refresh that succeeds, the access token is written
    and the request is out again, marked and with the new header. *)
Lemma execute_refreshed (c : Config) (w : World) (r1 rr : Response)
    (fields : gmap string string) :
  _retry c = false -> unauthorized r1 ->
  fulfilled rr -> data rr = Some fields ->
  let refreshToken := getItem "refresh_token" w in
  let access := js_string "undefined" (fields !! "access") in
  let c1 := request_interceptor w c in
  let c2 := set_Authorization ("Bearer " +:+ access) (set_retry true c1) in
  execute c w [Some r1; Some rr] =
    (issue (Send c2)
       (setItem "access_token" access
          (issue (RefreshPost refreshToken) (issue (Send c1) w))),
     Await (Send c2) (send_settled (client 0) c2)).
Proof.
  intros Hfresh H401 Hok Hdata. cbv zeta.
  change [Some r1; Some rr] with ([Some r1] ++ [Some rr]).
  rewrite execute_app, execute_first_unauthorized by done. simpl.
  unfold refresh_settled.
  rewrite settle_fulfilled, Hdata by done. simpl.
  by rewrite request_interceptor_after_refresh.
Qed.

(** C2. A request that was not retried before, whose first send is answered
    401, whose refresh call succeeds with a new access value, and whose
    resend is answered with a status in [200, 300): the promise resolves to
    the response of the resend; exactly two sends went out, the second one
    with the new access value in its header; the store holds the new access
    value. *)
Theorem single_retry_after_refresh (c : Config) (w : World)
    (r1 rr r3 : Response) (fields : gmap string string) (access : string) :
  _retry c = false -> unauthorized r1 ->
  fulfilled rr -> data rr = Some fields -> fields !! "access" = Some access ->
  fulfilled r3 ->
  let st := execute c w [Some r1; Some rr; Some r3] in
  let c1 := request_interceptor w c in
  let c2 := set_Authorization ("Bearer " +:+ access) (set_retry true c1) in
  st.2 = Done (Resolved r3) /\
  requests st.1 =
    requests w ++ [Send c1; RefreshPost (getItem "refresh_token" w); Send c2] /\
  sends st.1 = sends w ++ [c1; c2] /\
  Authorization c2 = Some ("Bearer " +:+ access) /\
  getItem "access_token" st.1 = Some access.
Proof.
  intros Hfresh H401 Hok Hdata Haccess Hok3. cbv zeta.
  change [Some r1; Some rr; Some r3] with ([Some r1; Some rr] ++ [Some r3]).
  rewrite execute_app, (execute_refreshed c w r1 rr fields) by done.
  rewrite Haccess. simpl. unfold send_settled.
  rewrite settle_fulfilled by done. simpl.
  repeat split.
  - by rewrite <- !app_assoc.
  - unfold sends. simpl. rewrite <- !app_assoc. simpl.
    by rewrite omap_app.
  - unfold getItem. simpl. apply lookup_insert_eq.
Qed.

(** C3, as the client behaves.  When the resend is answered 401 as well,
    the promise is rejected with the error of the resend itself: one
    refresh call and two sends went out, the refreshed access value stays
    in the store, the page is not redirected, and no further reply starts
    anything (the request is finished). *)
Theorem second_unauthorized_is_passed_on (c : Config) (w : World)
    (r1 rr r3 : Response) (fields : gmap string string)
    (more : list (option Response)) :
  _retry c = false -> unauthorized r1 ->
  fulfilled rr -> data rr = Some fields ->
  unauthorized r3 ->
  let st := execute c w ([Some r1; Some rr; Some r3] ++ more) in
  let access := js_string "undefined" (fields !! "access") in
  let c1 := request_interceptor w c in
  let c2 := set_Authorization ("Bearer " +:+ access) (set_retry true c1) in
  st.2 = Done (Rejected (AxiosErr {| config := c2; response := Some r3 |})) /\
  requests st.1 =
    requests w ++ [Send c1; RefreshPost (getItem "refresh_token" w); Send c2] /\
  refresh_calls st.1 = S (refresh_calls w) /\
  getItem "access_token" st.1 = Some access /\
  getItem "refresh_token" st.1 = getItem "refresh_token" w /\
  location_href st.1 = location_href w.
Proof.
  intros Hfresh H401 Hok Hdata H401'. cbv zeta.
  rewrite execute_app.
  change [Some r1; Some rr; Some r3] with ([Some r1; Some rr] ++ [Some r3]).
  rewrite execute_app, (execute_refreshed c w r1 rr fields) by done.
  simpl. rewrite send_settled_retried;
    [|done|by apply unauthorized_not_fulfilled].
  rewrite run_done. simpl.
  repeat split.
  - by rewrite <- !app_assoc.
  - unfold refresh_calls. simpl. rewrite <- !app_assoc.
    rewrite filter_app, length_app. simpl. lia.
  - unfold getItem. simpl. apply lookup_insert_eq.
  - unfold getItem. simpl. by rewrite lookup_insert_ne.
Qed.

(** The [catch] clause leaves the session-expired state behind, and
    rejects with the error it caught. *)
Lemma refresh_failed_SessionExpired (e : JsError) (w : World) :
  SessionExpired e (refresh_failed e w).
Proof.
  unfold SessionExpired, refresh_failed, getItem. simpl.
  split; [done|].
  split; [|split; [|done]].
  - rewrite lookup_delete_ne by done. apply lookup_delete_eq.
  - apply lookup_delete_eq.
Qed.

(** A first 401 followed by a refresh call that fails: the [catch] clause
    runs on the error of that call. *)
Lemma execute_refresh_fails (c : Config) (w : World) (r1 : Response)
    (reply : option Response) :
  _retry c = false -> unauthorized r1 -> refresh_fails reply ->
  execute c w [Some r1; reply] =
    refresh_failed (refreshError (getItem "refresh_token" w) reply)
      (issue (RefreshPost (getItem "refresh_token" w))
         (issue (Send (request_interceptor w c)) w)).
Proof.
  intros Hfresh H401 Hfail.
  change [Some r1; reply] with ([Some r1] ++ [reply]).
  rewrite execute_app, execute_first_unauthorized by done.
  cbn [run]. unfold refresh_settled, refreshError.
  destruct reply as [r|]; [|done].
  destruct (decide (fulfilled r)) as [Hok|Hno].
  - destruct Hfail as [Hno|Hnull]; [done|].
    by rewrite settle_fulfilled, Hnull.
  - by rewrite settle_not_fulfilled.
Qed.

Lemma single_retry_after_refresh_witness :
  let st := execute GET_x scenario_world
              [Some reply_401; Some reply_refreshed; Some reply_ok] in
  st.2 = Done (Resolved reply_ok) /\
  getItem "access_token" st.1 = Some "A2".
Proof.
  pose proof (single_retry_after_refresh GET_x scenario_world
                reply_401 reply_refreshed reply_ok {[ "access" := "A2" ]} "A2")
    as H.
  destruct H as (Hres & _ & _ & _ & Hstore);
    [reflexivity | reflexivity | unfold fulfilled; simpl; lia | reflexivity
    | reflexivity | unfold fulfilled; simpl; lia | ].
  exact (conj Hres Hstore).
Defined.

Lemma second_unauthorized_is_passed_on_witness :
  let st := execute GET_x scenario_world
              [Some reply_401; Some reply_refreshed; Some reply_401] in
  refresh_calls st.1 = 1%nat /\ getItem "access_token" st.1 = Some "A2".
Proof.
  pose proof (second_unauthorized_is_passed_on GET_x scenario_world
                reply_401 reply_refreshed reply_401 {[ "access" := "A2" ]} [])
    as H.
  destruct H as (_ & _ & Hcalls & Hstore & _);
    [reflexivity | reflexivity | unfold fulfilled; simpl; lia | reflexivity
    | reflexivity | ].
  exact (conj Hcalls Hstore).
Defined.

(** C3, as stated, fails: in scenario A with a second 401 the request does
    not end in the session-expired state, whatever the error (the store
    still holds a token). *)
Lemma second_unauthorized_not_SessionExpired :
  ~ exists e,
      SessionExpired e
        (execute GET_x scenario_world
           [Some reply_401; Some reply_refreshed; Some reply_401]).
Proof. intros (e & _ & Hstore & _). vm_compute in Hstore. discriminate. Qed.

(** C4. A request that was not retried before is answered 401 and the
    refresh call fails: the promise is rejected with the error of the
    refresh call (the one the [catch] clause holds in [refreshError]), both
    tokens are removed from the store ([getAccess()] gives nothing), the
    page is sent to the entry point, and the request is not resent. *)
Theorem refresh_failure_expires_session (c : Config) (w : World)
    (r1 : Response) (reply : option Response) :
  _retry c = false -> unauthorized r1 -> refresh_fails reply ->
  let st := execute c w [Some r1; reply] in
  SessionExpired (refreshError (getItem "refresh_token" w) reply) st /\
  getItem "access_token" st.1 = None /\
  sends st.1 = sends w ++ [request_interceptor w c].
Proof.
  intros Hfresh H401 Hfail. cbv zeta.
  rewrite execute_refresh_fails by done.
  set (w1 := issue _ (issue _ w)).
  pose proof (refresh_failed_SessionExpired
                (refreshError (getItem "refresh_token" w) reply) w1) as Hexp.
  split; [done|]. split; [apply Hexp|].
  unfold sends, w1. simpl. rewrite <- !app_assoc, omap_app. done.
Qed.

Lemma refresh_failure_expires_session_witness :
  SessionExpired
    (AxiosErr {| config := refresh_config (Some "R1"); response := None |})
    (execute GET_x scenario_world [Some reply_401; None]).
Proof.
  apply (refresh_failure_expires_session GET_x scenario_world reply_401 None);
    [reflexivity | reflexivity | exact I].
Defined.

(** C5, as the client behaves.  A refresh that succeeds changes one key of
    the store, in one write: [access_token] becomes the [access] field of
    the response.  The stored refresh value is the one from before,
    whatever the response carries. *)
Theorem refresh_success_replaces_access_only (c : Config) (w : World)
    (r1 rr : Response) (fields : gmap string string) :
  _retry c = false -> unauthorized r1 ->
  fulfilled rr -> data rr = Some fields ->
  let st := execute c w [Some r1; Some rr] in
  localStorage st.1 =
    <["access_token" := js_string "undefined" (fields !! "access")]>
      (localStorage w) /\
  getItem "refresh_token" st.1 = getItem "refresh_token" w.
Proof.
  intros Hfresh H401 Hok Hdata. cbv zeta.
  rewrite (execute_refreshed c w r1 rr fields) by done. simpl.
  split; [done|]. unfold getItem. simpl. by rewrite lookup_insert_ne.
Qed.

Lemma refresh_success_replaces_access_only_witness :
  let st := execute GET_x scenario_world
              [Some reply_401; Some reply_rotated] in
  getItem "refresh_token" st.1 = getItem "refresh_token" scenario_world.
Proof.
  apply (refresh_success_replaces_access_only GET_x scenario_world
           reply_401 reply_rotated {[ "access" := "A2"; "refresh" := "R2" ]});
    [reflexivity | reflexivity | unfold fulfilled; simpl; lia | reflexivity].
Defined.

(** C5, as stated, fails: the server rotates the refresh value to R2, and
    the store afterwards pairs the new access value A2 with the old
    refresh value R1. *)
Lemma rotated_refresh_value_is_dropped :
  let st := execute GET_x scenario_world
              [Some reply_401; Some reply_rotated; Some reply_ok] in
  st.2 = Done (Resolved reply_ok) /\
  getItem "access_token" st.1 = Some "A2" /\
  getItem "refresh_token" st.1 = Some "R1" /\
  getItem "refresh_token" st.1 <> Some "R2".
Proof. vm_compute. repeat split; discriminate. Qed.

(** *** Several requests in flight *)

Lemma spawn_all (w : World) (configs : list Config) :
  forall (w' : World) (pool : list Async),
  localStorage w' = localStorage w ->
  foldl (fun sys c => spawn c sys) (w', pool) configs =
    ({| localStorage := localStorage w';
        location_href := location_href w';
        requests := requests w' ++
          map (fun c => Send (request_interceptor w c)) configs |},
     pool ++ map (fun c => awaits_send (request_interceptor w c)) configs).
Proof.
  induction configs as [|c configs IH]; intros w' pool Hstore; simpl.
  - rewrite !app_nil_r. by destruct w'.
  - rewrite IH by done. simpl.
    rewrite (request_interceptor_storage w' w) by done.
    by rewrite <- !app_assoc.
Qed.

Lemma burst_pending (configs : list Config) (w : World) :
  burst configs w =
    ({| localStorage := localStorage w;
        location_href := location_href w;
        requests := requests w ++
          map (fun c => Send (request_interceptor w c)) configs |},
     map (fun c => awaits_send (request_interceptor w c)) configs).
Proof. unfold burst. by rewrite (spawn_all w). Qed.

Lemma deliver_unauthorized (i : nat) (r : Response) (w : World)
    (pool : list Async) (c1 : Config) :
  pool !! i = Some (awaits_send c1) -> _retry c1 = false -> unauthorized r ->
  deliver i (Some r) (w, pool) =
    (issue (RefreshPost (getItem "refresh_token" w)) w,
     <[i := awaits_refresh c1 (getItem "refresh_token" w)]> pool).
Proof.
  intros Hi Hfresh H401. unfold deliver. rewrite Hi. unfold awaits_send.
  by rewrite send_settled_unauthorized.
Qed.

Lemma refresh_calls_issue_refresh (tok : option string) (w : World) :
  refresh_calls (issue (RefreshPost tok) w) = S (refresh_calls w).
Proof.
  unfold refresh_calls. simpl. rewrite filter_app, length_app. simpl. lia.
Qed.

Lemma deliver_all_cons (i : nat) (r : Response)
    (replies : list (nat * Response)) (sys : System) :
  deliver_all ((i, r) :: replies) sys =
    deliver_all replies (deliver i (Some r) sys).
Proof. reflexivity. Qed.

(** Delivering a 401 to each of several waiting requests, in any order:
    every delivery puts one refresh call on the network. *)
Lemma deliver_all_unauthorized (replies : list (nat * Response)) :
  forall (w : World) (pool : list Async),
  NoDup replies.*1 ->
  (forall d, d ∈ replies ->
     unauthorized d.2 /\
     exists c1, _retry c1 = false /\ pool !! d.1 = Some (awaits_send c1)) ->
  let sys := deliver_all replies (w, pool) in
  localStorage sys.1 = localStorage w /\
  refresh_calls sys.1 = (refresh_calls w + length replies)%nat /\
  (forall i c1, i ∈ replies.*1 -> pool !! i = Some (awaits_send c1) ->
     sys.2 !! i = Some (awaits_refresh c1 (getItem "refresh_token" w))) /\
  (forall j, j ∉ replies.*1 -> sys.2 !! j = pool !! j).
Proof.
  induction replies as [|[i r] replies IH]; intros w pool Hnodup Hall.
  - simpl. split; [done|]. split; [lia|]. split; [|done].
    intros i c1 Hin. by apply elem_of_nil in Hin.
  - simpl in Hnodup. apply NoDup_cons in Hnodup as [Hnotin Hnodup].
    destruct (Hall (i, r)) as (H401 & c1 & Hfresh & Hi); [left|].
    simpl in H401, Hi.
    cbv zeta. rewrite deliver_all_cons.
    rewrite (deliver_unauthorized i r w pool c1) by done.
    set (w1 := issue _ w). set (pool1 := <[i := _]> pool).
    destruct (IH w1 pool1 Hnodup) as (Hstore & Hcalls & Hdone & Hrest).
    { intros d Hd. destruct (Hall d) as (Hd401 & c & Hc & Hlook); [by right|].
      split; [done|]. exists c. split; [done|].
      unfold pool1. rewrite list_lookup_insert_ne; [done|].
      intros Heq. apply Hnotin. rewrite Heq.
      by apply (list_elem_of_fmap_2 fst). }
    split; [done|]. split.
    { rewrite Hcalls. unfold w1. rewrite refresh_calls_issue_refresh.
      cbn [length]. lia. }
    split.
    + intros j c Hj Hlook. cbn [fmap list_fmap fst] in Hj.
      apply elem_of_cons in Hj as [Heq|Hj].
      * rewrite Heq in *. rewrite Hrest by done. unfold pool1.
        rewrite Hi in Hlook. injection Hlook as <-.
        apply list_lookup_insert_eq. by eapply lookup_lt_Some.
      * apply (Hdone j c Hj). unfold pool1.
        rewrite list_lookup_insert_ne; [done|]. by intros ->.
    + intros j Hj. apply not_elem_of_cons in Hj as [Hne Hj].
      rewrite Hrest by done. unfold pool1.
      by rewrite list_lookup_insert_ne.
Qed.

(** C1, as the client behaves.  [length configs] requests are handed to the
    network before any reply is in, and each is answered 401, in any
    order: every request makes a refresh call of its own, so as many
    refresh calls go out as there are requests, and each request then waits
    for the reply to its own refresh call, which alone decides how it
    ends. *)
Theorem every_unauthorized_request_refreshes (configs : list Config)
    (w : World) (replies : list (nat * Response)) :
  Forall (fun c => _retry c = false) configs ->
  replies.*1 ≡ₚ seq 0 (length configs) ->
  Forall (fun d => unauthorized d.2) replies ->
  let sys := deliver_all replies (burst configs w) in
  refresh_calls sys.1 = (refresh_calls w + length configs)%nat /\
  forall i c, configs !! i = Some c ->
    sys.2 !! i =
      Some (awaits_refresh (request_interceptor w c)
              (getItem "refresh_token" w)).
Proof.
  intros Hfresh Hperm H401. cbv zeta. rewrite burst_pending.
  set (w0 := {| localStorage := _ |}).
  set (pool := map _ configs).
  assert (Hpool : forall i c, configs !! i = Some c ->
            pool !! i = Some (awaits_send (request_interceptor w c))).
  { intros i c Hi. unfold pool. by rewrite list_lookup_fmap, Hi. }
  destruct (deliver_all_unauthorized replies w0 pool)
    as (_ & Hcalls & Hdone & _).
  { rewrite Hperm. apply NoDup_seq. }
  { intros d Hd. split.
    - by apply (proj1 (Forall_forall _ _) H401).
    - assert (Hin : d.1 ∈ seq 0 (length configs)).
      { rewrite <- Hperm. by apply (list_elem_of_fmap_2 fst). }
      apply elem_of_seq in Hin.
      destruct (lookup_lt_is_Some_2 configs d.1) as [c Hc]; [lia|].
      exists (request_interceptor w c). split; [|by apply Hpool].
      rewrite request_interceptor_retry.
      by apply (proj1 (Forall_lookup _ _) Hfresh _ _ Hc). }
  split.
  - rewrite Hcalls.
    replace (length replies) with (length configs).
    + unfold refresh_calls, w0. simpl.
      rewrite filter_app, length_app.
      assert (Hnone : filter (fun c => is_refresh c = true)
                (map (fun c => Send (request_interceptor w c)) configs) = []).
      { clear. induction configs as [|c configs IH]; [done|].
        simpl. by rewrite filter_cons_False. }
      rewrite Hnone. simpl. lia.
    + rewrite <- (length_fmap fst replies), Hperm. by rewrite length_seq.
  - intros i c Hi.
    apply Hdone; [|by apply Hpool].
    rewrite Hperm. apply elem_of_seq.
    apply lookup_lt_Some in Hi. lia.
Qed.

Lemma every_unauthorized_request_refreshes_witness :
  refresh_calls
    (deliver_all [(1%nat, reply_401); (0%nat, reply_401)]
       (burst [GET_x; POST_y] scenario_world)).1 = 2%nat.
Proof.
  apply (every_unauthorized_request_refreshes [GET_x; POST_y] scenario_world
           [(1%nat, reply_401); (0%nat, reply_401)]).
  - repeat constructor.
  - simpl. apply Permutation_swap.
  - repeat constructor.
Defined.

(** C1, as stated, fails: two requests in flight, both answered 401, put
    two refresh calls on the network, not one. *)
Lemma burst_of_two_refreshes_twice :
  let sys := deliver_all [(0%nat, reply_401); (1%nat, reply_401)]
               (burst [GET_x; POST_y] scenario_world) in
  requests sys.1 =
    [Send (request_interceptor scenario_world GET_x);
     Send (request_interceptor scenario_world POST_y);
     RefreshPost (Some "R1"); RefreshPost (Some "R1")] /\
  refresh_calls sys.1 <> 1%nat.
Proof. vm_compute. split; [reflexivity | discriminate]. Qed.

(** Each request of a burst ends as its own refresh call ends: here the
    refresh call of the first request fails and the one of the second
    succeeds, so the first is rejected and the page is sent to the entry
    point, while the second resolves and leaves its access value in the
    store. *)
Lemma burst_outcomes_can_differ :
  let sys :=
    deliver 1 (Some reply_ok)
      (deliver 1 (Some reply_refreshed)
         (deliver 0 None
            (deliver_all [(0%nat, reply_401); (1%nat, reply_401)]
               (burst [GET_x; POST_y] scenario_world)))) in
  (exists e, sys.2 !! 0%nat = Some (Done (Rejected e))) /\
  sys.2 !! 1%nat = Some (Done (Resolved reply_ok)) /\
  location_href sys.1 = "/auth" /\
  getItem "access_token" sys.1 = Some "A2" /\
  getItem "refresh_token" sys.1 = None.
Proof. vm_compute. split; [by eexists|]. by repeat split. Qed.

End ApiClientProofs.

(* ===================================================================== *)
(** ** Properties of the useWebSocket hook *)
(* ===================================================================== *)

Module UseWebSocketProofs.
Import UseWebSocket.

(** C8. An open stream delivers a payload that [JSON.parse] rejects: the
    handler [onMessage] is not called, the failure is written to the
    console once, and nothing else changes; the stream stays open and so
    does the channel. *)
Theorem malformed_message_is_dropped (options : Options)
    (JSON_parse : string -> option Json) (h : Hook) (ws : nat) (s : Socket)
    (event_data : string) :
  sockets h !! ws = Some s -> readyState s = OPEN ->
  JSON_parse event_data = None ->
  exists h',
    step options JSON_parse h (WsMessage ws event_data) = Some h' /\
    effects h' =
      effects h ++ [console_error "Failed to parse WebSocket message"] /\
    (forall message,
       call_onMessage message ∉ drop (length (effects h)) (effects h')) /\
    sockets h' = sockets h /\
    sockets h' !! ws = Some s /\
    status h' = status h /\
    (status h = Open -> status h' = Open) /\
    isConnected h' = isConnected h /\
    wsRef h' = wsRef h /\
    timers h' = timers h.
Proof.
  intros Hws Hopen Hparse.
  exists (emit (console_error "Failed to parse WebSocket message") h).
  split.
  - simpl. rewrite Hws, Hopen. unfold onmessage. by rewrite Hparse.
  - simpl. repeat split; try done.
    intros message. rewrite drop_app_length.
    intros Hin. apply list_elem_of_singleton in Hin. discriminate.
Qed.

(** The guard of [connect]: with the flag of its render false, it returns
    at once. *)
Lemma connect_unauthenticated (options : Options) (sc : Scope) (h : Hook) :
  scope_isAuthenticated sc = false -> connect options sc h = h.
Proof. intros Hno. unfold connect. by rewrite Hno. Qed.

Lemma malformed_message_is_dropped_witness :
  exists h h',
    run defaults parse_literals [Render; WsOpen 0%nat] signed_in = Some h /\
    status h = Open /\
    step defaults parse_literals h (WsMessage 0%nat "{oops") = Some h' /\
    status h' = status h.
Proof.
  eexists.
  destruct (malformed_message_is_dropped defaults parse_literals
              (default signed_in
                 (run defaults parse_literals [Render; WsOpen 0%nat] signed_in))
              0%nat
              {| ws_url := "ws://localhost:8000/ws/dashboard/?token=A1";
                 readyState := OPEN;
                 ws_scope := {| scope_isAuthenticated := true;
                                scope_reconnectCount := 0%Z |} |}
              "{oops")
    as (h' & Hstep & _ & _ & _ & _ & Hstatus & _);
    [reflexivity | reflexivity | reflexivity | ].
  exists h'. split; [reflexivity|]. split; [reflexivity|].
  split; [exact Hstep | exact Hstatus].
Defined.

(** *** A close handler of the first render never stops rescheduling *)

Section storm.

Variable options : Options.
Variable JSON_parse : string -> option Json.
Hypothesis positive_maximum : (0 < maxReconnectAttempts options)%Z.

Lemma reconnect_fields (sc : Scope) (h : Hook) :
  scope_isAuthenticated sc = true ->
  let h' := reconnect options sc h in
  reconnectCount h' = (reconnectCount h + 1)%Z /\
  store_isAuthenticated h' = store_isAuthenticated h /\
  rendered h' = rendered h /\
  timers h' = timers h /\
  wsRef h' = Some (length (sockets h)) /\
  exists old s, length old = length (sockets h) /\
    sockets h' = old ++ [s] /\ readyState s = CONNECTING /\ ws_scope s = sc.
Proof.
  intros Hauth. unfold reconnect, connect. rewrite Hauth. cbn [negb].
  destruct h as [ic rc wr tr au rd ss ts ls ef]. simpl.
  destruct wr as [w|]; simpl; rewrite ?length_alter; repeat split;
    eauto 10 using length_alter.
Qed.

(** A render whose scope differs from the one of the memoised [connect]:
    the cleanup closes the stream of [wsRef], the effect makes a new one. *)
Lemma render_fields (h : Hook) (prev : Scope) (w : nat) :
  rendered h = Some prev ->
  prev <> mkScope true (reconnectCount h) ->
  store_isAuthenticated h = true ->
  wsRef h = Some w ->
  let h' := render options h in
  reconnectCount h' = reconnectCount h /\
  store_isAuthenticated h' = true /\
  rendered h' = Some (mkScope true (reconnectCount h)) /\
  length (timers h') = length (timers h) /\
  exists s, sockets h' = alter close_socket w (sockets h) ++ [s] /\
    readyState s = CONNECTING /\ ws_scope s = mkScope true (reconnectCount h).
Proof.
  intros Hrend Hne Hauth Hws. unfold render. rewrite Hrend, Hauth.
  rewrite decide_False by done. simpl.
  unfold disconnect.
  destruct h as [ic rc wr tr au rd ss ts ls ef]. simpl in *. subst.
  destruct tr as [t|]; simpl; rewrite ?length_alter; repeat split; eauto 10.
Qed.

Lemma onclose_fields (sc : Scope) (h : Hook) :
  let h' := onclose options sc h in
  reconnectCount h' = reconnectCount h /\
  store_isAuthenticated h' = store_isAuthenticated h /\
  rendered h' = rendered h /\
  sockets h' = sockets h /\
  wsRef h' = wsRef h /\
  isConnected h' = false /\
  timers h' =
    if (scope_reconnectCount sc <? maxReconnectAttempts options)%Z
    then timers h ++ [{| timer_scope := sc;
                         timer_delay := reconnectInterval options;
                         timer_state := Pending |}]
    else timers h.
Proof.
  unfold onclose, optional_call.
  by destruct (onDisconnect options), (_ <? _)%Z.
Qed.

Lemma step_WsClose (h : Hook) (ws : nat) (s : Socket) :
  sockets h !! ws = Some s -> readyState s <> CLOSED ->
  step options JSON_parse h (WsClose ws) =
    Some (onclose options (ws_scope s) (update_socket ws CLOSED h)).
Proof. intros Hs Hr. simpl. rewrite Hs. by destruct (readyState s). Qed.

Lemma step_TimerFire (h : Hook) (t : nat) (tm : Timer) :
  timers h !! t = Some tm -> timer_state tm = Pending ->
  step options JSON_parse h (TimerFire t) =
    Some (reconnect options (timer_scope tm)
            (set_timers (alter fire_timer t (timers h)) h)).
Proof. intros Ht Hp. simpl. by rewrite Ht, Hp. Qed.

Lemma run_app (events more : list Event) :
  forall h h',
  run options JSON_parse events h = Some h' ->
  run options JSON_parse (events ++ more) h = run options JSON_parse more h'.
Proof.
  induction events as [|e events IH]; intros h h' Hrun; simpl in *.
  - by simplify_eq.
  - destruct (step options JSON_parse h e) as [h1|]; [|done].
    by apply IH.
Qed.

(** One round: the pending timer of the first scope fires and calls the
    [connect] of the first scope; React renders the new count, whose
    cleanup closes the stream just made and whose effect makes another;
    both streams close without opening.  The close handler of the first
    stream belongs to the first scope again and compares its count 0, so a
    timer of the first scope is pending once more, and the count is one
    higher. *)
Lemma storm_round (n : Z) (h : Hook) (t : nat) :
  storming options n h -> timers h !! t = Some (first_scope_timer options) ->
  exists h',
    run options JSON_parse
      [TimerFire t; Render; WsClose (length (sockets h));
       WsClose (S (length (sockets h)))] h = Some h' /\
    storming options (n + 1) h'.
Proof.
  intros (Hn & Hauth & Hrend & _) Ht.
  set (m := length (sockets h)).
  (* the timer fires *)
  set (h1 := reconnect options first_scope
               (set_timers (alter fire_timer t (timers h)) h)).
  assert (Hstep1 : step options JSON_parse h (TimerFire t) = Some h1)
    by (by rewrite (step_TimerFire h t (first_scope_timer options))).
  destruct (reconnect_fields first_scope
              (set_timers (alter fire_timer t (timers h)) h) eq_refl)
    as (Hn1 & Hauth1 & Hrend1 & Htimers1 & Href1 & old & sA & Hold & Hsock1
        & HsA & HscA).
  fold h1 in Hn1, Hauth1, Hrend1, Htimers1, Href1, Hsock1.
  clearbody h1.
  simpl in Hn1, Hauth1, Hrend1, Htimers1, Href1, Hold.
  (* React renders *)
  assert (Hstep2 : step options JSON_parse h1 Render
                   = Some (render options h1)) by done.
  set (h2 := render options h1) in *.
  destruct (render_fields h1 (mkScope true n) m)
    as (Hn2 & Hauth2 & Hrend2 & Htimers2 & sB & Hsock2 & HsB & HscB).
  { by rewrite Hrend1. }
  { rewrite Hn1, Hn. intros Heq. injection Heq. lia. }
  { by rewrite Hauth1. }
  { done. }
  fold h2 in Hn2, Hauth2, Hrend2, Htimers2, Hsock2.
  clearbody h2.
  (* the stream made by the timer was closed by the cleanup *)
  assert (HmA : sockets h2 !! m = Some (close_socket sA)).
  { rewrite Hsock2, Hsock1. rewrite lookup_app_l.
    - rewrite list_lookup_alter_eq, lookup_app_r by lia.
      by replace (m - length old)%nat with 0%nat by lia.
    - rewrite length_alter, length_app. simpl. lia. }
  set (h3 := onclose options first_scope (update_socket m CLOSED h2)).
  assert (Hstep3 : step options JSON_parse h2 (WsClose m) = Some h3).
  { rewrite (step_WsClose h2 m (close_socket sA) HmA).
    - unfold close_socket. rewrite HsA. simpl. by rewrite HscA.
    - unfold close_socket. by rewrite HsA. }
  destruct (onclose_fields first_scope (update_socket m CLOSED h2))
    as (Hn3 & Hauth3 & Hrend3 & Hsock3 & _ & _ & Htimers3).
  fold h3 in Hn3, Hauth3, Hrend3, Hsock3, Htimers3.
  clearbody h3.
  simpl in Hn3, Hauth3, Hrend3, Hsock3, Htimers3.
  apply Z.ltb_lt in positive_maximum as Hmax. rewrite Hmax in Htimers3.
  (* the stream made by the effect fails *)
  assert (HmB : sockets h3 !! S m = Some sB).
  { rewrite Hsock3, list_lookup_alter_ne by lia.
    rewrite Hsock2, lookup_app_r;
      rewrite length_alter, Hsock1, length_app; simpl; [|lia].
    by replace (S m - (length old + 1))%nat with 0%nat by lia. }
  set (h4 := onclose options (ws_scope sB) (update_socket (S m) CLOSED h3)).
  assert (Hstep4 : step options JSON_parse h3 (WsClose (S m)) = Some h4).
  { rewrite (step_WsClose h3 (S m) sB HmB); [done|]. by rewrite HsB. }
  destruct (onclose_fields (ws_scope sB) (update_socket (S m) CLOSED h3))
    as (Hn4 & Hauth4 & Hrend4 & _ & _ & _ & Htimers4).
  fold h4 in Hn4, Hauth4, Hrend4, Htimers4.
  clearbody h4.
  simpl in Hn4, Hauth4, Hrend4, Htimers4.
  exists h4. split.
  - cbn [run]. by rewrite Hstep1, Hstep2, Hstep3, Hstep4.
  - split; [|split; [|split]].
    + rewrite Hn4, Hn3, Hn2, Hn1. by rewrite Hn.
    + by rewrite Hauth4, Hauth3.
    + rewrite Hrend4, Hrend3, Hrend2, Hn1. by rewrite Hn.
    + exists (length (timers h2)). rewrite Htimers4, Htimers3.
      destruct (scope_reconnectCount (ws_scope sB) <? _)%Z.
      * rewrite lookup_app_l by (rewrite length_app; simpl; lia).
        rewrite lookup_app_r by lia.
        by replace (_ - _)%nat with 0%nat by lia.
      * rewrite lookup_app_r by lia.
        by replace (_ - _)%nat with 0%nat by lia.
Qed.

(** The first stream of an authenticated user fails: a timer of the first
    scope is pending. *)
Lemma storm_start (storage : gmap string string) :
  exists h,
    run options JSON_parse [Render; WsClose 0%nat] (initial true storage)
      = Some h /\
    storming options 0%Z h.
Proof.
  set (h1 := render options (initial true storage)).
  set (s := {| ws_url := url options +:+ "?token=" +:+
                           js_string "null" (storage !! "access_token");
               readyState := CONNECTING; ws_scope := first_scope |}).
  assert (Hs : sockets h1 !! 0%nat = Some s) by done.
  assert (Hstep : step options JSON_parse h1 (WsClose 0)
            = Some (onclose options first_scope
                      (update_socket 0 CLOSED h1))).
  { by rewrite (step_WsClose h1 0%nat s Hs). }
  destruct (onclose_fields first_scope (update_socket 0 CLOSED h1))
    as (Hn & Hauth & Hrend & _ & _ & _ & Htimers).
  apply Z.ltb_lt in positive_maximum as Hmax.
  simpl in Htimers. rewrite Hmax in Htimers.
  eexists. split.
  - cbn [run]. change (step options JSON_parse (initial true storage) Render)
      with (Some h1). cbv beta iota. by rewrite Hstep.
  - split; [by rewrite Hn|]. split; [by rewrite Hauth|].
    split; [by rewrite Hrend|]. exists 0%nat. by rewrite Htimers.
Qed.

(** For an authenticated user whose streams never open, and whatever the
    maximum is (as long as one retry is allowed), [reconnectCount] reaches
    every number. *)
Lemma reconnectCount_unbounded (storage : gmap string string) (n : nat) :
  exists events h,
    never_opens events /\
    run options JSON_parse events (initial true storage) = Some h /\
    storming options (Z.of_nat n) h.
Proof.
  induction n as [|n (events & h & Hnever & Hrun & Hstorm)].
  - destruct (storm_start storage) as (h & Hrun & Hstorm).
    exists [Render; WsClose 0%nat], h. split; [reflexivity|]. by split.
  - pose proof Hstorm as (_ & _ & _ & t & Ht).
    destruct (storm_round (Z.of_nat n) h t Hstorm Ht) as (h' & Hround & Hst').
    exists (events ++ [TimerFire t; Render; WsClose (length (sockets h));
                       WsClose (S (length (sockets h)))]), h'.
    split; [|split].
    + unfold never_opens in *. by rewrite forallb_app, Hnever.
    + by rewrite (run_app events _ _ h Hrun).
    + by replace (Z.of_nat (S n)) with (Z.of_nat n + 1)%Z by lia.
Qed.

End storm.

(** C6, at scenario C ([maxReconnectAttempts] 3, delay 0, no stream ever
    opens).  The close handler compares the [reconnectCount] of the render
    its [connect] was made in, and the timer calls that same [connect]
    again.  With React rendering after each timer callback, the streams
    made by the first [connect] keep scheduling: after the events of
    [failing_streams] the count is 4, eight streams and six timers were
    made, and an eighth attempt is under way.  When every stream fails
    before React renders, the count stops at 3 and the channel stays
    closed, after seven streams and six timers.  And there is no bound at
    all: every number is the count after some run in which no stream
    opens. *)
Theorem reconnection_is_not_bounded :
  maxReconnectAttempts scenario_C = 3%Z /\
  (exists h,
     run scenario_C parse_literals failing_streams signed_in = Some h /\
     reconnectCount h = 4%Z /\
     connection_attempts h = 8%nat /\
     scheduled_reconnections h = 6%nat /\
     existsb opened (effects h) = false /\
     status h = Connecting) /\
  (exists h,
     run scenario_C parse_literals failing_streams_at_once signed_in
       = Some h /\
     reconnectCount h = 3%Z /\
     connection_attempts h = 7%nat /\
     scheduled_reconnections h = 6%nat /\
     existsb opened (effects h) = false /\
     pending_timers h = [] /\
     status h = Closed) /\
  (forall n : nat, exists events h,
     never_opens events /\
     run scenario_C parse_literals events signed_in = Some h /\
     reconnectCount h = Z.of_nat n).
Proof.
  split; [reflexivity|]. split; [|split].
  - exists (default signed_in
      (run scenario_C parse_literals failing_streams signed_in)).
    vm_compute. repeat split.
  - exists (default signed_in
      (run scenario_C parse_literals failing_streams_at_once signed_in)).
    vm_compute. repeat split.
  - intros n.
    destruct (reconnectCount_unbounded scenario_C parse_literals eq_refl
                {[ "access_token" := "A1" ]} n)
      as (events & h & Hnever & Hrun & Hcount & _).
    by exists events, h.
Qed.

(** *** While the user is signed out *)

(** As long as the store does not report an authenticated user, no event
    makes the hook open a stream: the channel stays idle. *)
Lemma signed_out_stays_idle (options : Options)
    (JSON_parse : string -> option Json) (storage : gmap string string)
    (events : list Event) (h : Hook) :
  forallb (fun e => negb (signs_in e)) events = true ->
  run options JSON_parse events (initial false storage) = Some h ->
  sockets h = [] /\ status h = Idle.
Proof.
  intros Hout Hrun.
  assert (Hinv : store_isAuthenticated h = false /\
                 sockets h = [] /\ timers h = []).
  { revert Hout Hrun.
    assert (Hinit : store_isAuthenticated (initial false storage) = false /\
                    sockets (initial false storage) = [] /\
                    timers (initial false storage) = []) by done.
    revert Hinit. generalize (initial false storage) as h0.
    induction events as [|e events IH];
      intros h0 (Hauth & Hnone & Htimers) Hout Hrun; simpl in Hout, Hrun.
    - by simplify_eq.
    - apply andb_prop in Hout as [He Hout].
      destruct (step options JSON_parse h0 e) as [h1|] eqn:Hstep; [|done].
      apply (IH h1); [|done|done].
      assert (Hdis : store_isAuthenticated (disconnect h0) = false /\
                     sockets (disconnect h0) = [] /\
                     timers (disconnect h0) = []).
      { unfold disconnect.
        destruct (reconnectTimeoutRef h0), (wsRef h0) eqn:Hw; simpl;
          rewrite ?Hw; simpl; by rewrite ?Hnone, ?Htimers. }
      destruct e; simpl in Hstep, He; rewrite ?Hnone, ?Htimers in Hstep;
        simplify_eq; simpl; try done.
      + unfold render. rewrite Hauth.
        destruct (rendered h0); [case_decide|]; simpl; done.
      + by destruct b.
      + unfold sendMessage. by repeat case_match. }
  destruct Hinv as (_ & Hnone & _). split; [done|].
  unfold status. by rewrite Hnone.
Qed.

(** *** What [disconnect] does and does not do *)

Lemma clear_timer_twice (t : Timer) :
  clear_timer (clear_timer t) = clear_timer t.
Proof.
  unfold clear_timer.
  by destruct (timer_state t) eqn:Hs; simpl; rewrite ?Hs.
Qed.

Lemma close_socket_twice (s : Socket) :
  close_socket (close_socket s) = close_socket s.
Proof.
  unfold close_socket.
  by destruct (readyState s) eqn:Hs; simpl; rewrite ?Hs.
Qed.

(** Calling [disconnect] a second time changes nothing. *)
Lemma disconnect_idempotent (h : Hook) :
  disconnect (disconnect h) = disconnect h.
Proof.
  destruct h as [ic rc wr tr au rd ss ts ls ef]. unfold disconnect. simpl.
  destruct tr as [t|], wr as [w|]; simpl; try done;
    unfold clearTimeout, ws_close, set_wsRef, set_sockets, set_timers; simpl;
    rewrite list_alter_alter_eq;
    f_equal; apply list_alter_ext; [|done| |done];
      intros tm _; apply clear_timer_twice.
Qed.

(** [disconnect] cancels the reconnection that [reconnectTimeoutRef]
    holds, starts closing the stream of [wsRef], and empties [wsRef]. *)
Lemma disconnect_cancels (h : Hook) (t ws : nat) (tm : Timer) (s : Socket) :
  reconnectTimeoutRef h = Some t -> timers h !! t = Some tm ->
  wsRef h = Some ws -> sockets h !! ws = Some s ->
  timers (disconnect h) !! t = Some (clear_timer tm) /\
  timer_state (clear_timer tm) <> Pending /\
  sockets (disconnect h) !! ws = Some (close_socket s) /\
  wsRef (disconnect h) = None.
Proof.
  intros Hr Ht Hw Hs. unfold disconnect. rewrite Hr. simpl. rewrite Hw.
  simpl. rewrite !list_lookup_alter_eq, Ht, Hs. repeat split.
  unfold clear_timer. by destruct (timer_state tm) eqn:Hst; simpl; rewrite ?Hst.
Qed.

(** The close event that follows [disconnect] on an open stream runs the
    close handler of that stream: whenever the count captured by the
    handler is below the maximum, a new reconnection timer is pending
    afterwards. *)
Lemma close_after_disconnect_reschedules (options : Options)
    (JSON_parse : string -> option Json) (h : Hook) (ws : nat) (s : Socket) :
  wsRef h = Some ws -> sockets h !! ws = Some s -> readyState s = OPEN ->
  (scope_reconnectCount (ws_scope s) < maxReconnectAttempts options)%Z ->
  exists h',
    status (disconnect h) = status (ws_close ws h) /\
    run options JSON_parse [CallDisconnect; WsClose ws] h = Some h' /\
    isConnected h' = false /\
    reconnectTimeoutRef h' = Some (length (timers h)) /\
    timers h' !! length (timers h) =
      Some {| timer_scope := ws_scope s;
              timer_delay := reconnectInterval options;
              timer_state := Pending |}.
Proof.
  intros Hw Hs Hopen Hlt.
  assert (Hsock : sockets (disconnect h) !! ws = Some (close_socket s)).
  { unfold disconnect.
    destruct (reconnectTimeoutRef h); simpl; rewrite Hw; simpl;
      by rewrite list_lookup_alter_eq, Hs. }
  assert (Htimers : length (timers (disconnect h)) = length (timers h)).
  { unfold disconnect.
    destruct (reconnectTimeoutRef h); simpl; rewrite Hw; simpl;
      by rewrite ?length_alter. }
  assert (Hclosing : readyState (close_socket s) = CLOSING).
  { unfold close_socket. by rewrite Hopen. }
  assert (Hscope : ws_scope (close_socket s) = ws_scope s).
  { unfold close_socket. by rewrite Hopen. }
  eexists. split; [|split].
  - unfold disconnect, status.
    by destruct (reconnectTimeoutRef h); simpl; rewrite Hw.
  - cbn [run].
    change (step options JSON_parse h CallDisconnect)
      with (Some (disconnect h)). cbv beta iota.
    rewrite (step_WsClose options JSON_parse (disconnect h) ws
               (close_socket s) Hsock) by (by rewrite Hclosing).
    reflexivity.
  - rewrite Hscope.
    destruct (onclose_fields options (ws_scope s)
                (update_socket ws CLOSED (disconnect h)))
      as (_ & _ & _ & _ & _ & Hconn & Htm).
    apply Z.ltb_lt in Hlt. rewrite Hlt in Htm. simpl in Htm.
    split; [done|]. split.
    + unfold onclose, optional_call. rewrite Hlt.
      destruct (onDisconnect options); simpl; by rewrite Htimers.
    + rewrite Htm, <- Htimers, lookup_app_r by lia.
      by replace (_ - _)%nat with 0%nat by lia.
Qed.

(** C7, at scenario D with the default options.  After [disconnect] the
    stream is closing and [wsRef] is empty; its close event runs the close
    handler, which sets a reconnection timer as for any other close; the
    timer makes a new stream. *)
Theorem disconnect_is_followed_by_reconnection :
  exists h1 h2 h3,
    run defaults parse_literals open_then_disconnect signed_in = Some h1 /\
    status h1 = Closing /\ wsRef h1 = None /\ pending_timers h1 = [] /\
    step defaults parse_literals h1 (WsClose 0) = Some h2 /\
    status h2 = Closed /\ pending_timers h2 = [0%nat] /\
    step defaults parse_literals h2 (TimerFire 0) = Some h3 /\
    status h3 = Connecting /\ wsRef h3 = Some 1%nat /\
    connection_attempts h3 = 2%nat.
Proof.
  exists (default signed_in
    (run defaults parse_literals open_then_disconnect signed_in)).
  exists (default signed_in
    (run defaults parse_literals
       (open_then_disconnect ++ [WsClose 0]) signed_in)).
  exists (default signed_in
    (run defaults parse_literals
       (open_then_disconnect ++ [WsClose 0; TimerFire 0]) signed_in)).
  vm_compute. repeat split.
Qed.

(** *** One stream at a time *)

Lemma close_socket_not_live (s : Socket) : ~ live (close_socket s).
Proof.
  unfold live, close_socket.
  destruct (readyState s) eqn:Hs; simpl; rewrite ?Hs; intros [?|?]; done.
Qed.

Lemma live_close_socket (s : Socket) : live (close_socket s) -> live s.
Proof. intros Hlive. by apply close_socket_not_live in Hlive. Qed.

Lemma one_stream_same (h h' : Hook) :
  sockets h' = sockets h -> wsRef h' = wsRef h ->
  one_stream h -> one_stream h'.
Proof. unfold one_stream. intros -> ->. done. Qed.

Lemma no_live_one_stream (h : Hook) : no_live h -> one_stream h.
Proof. intros Hno i s Hi Hlive. by destruct (Hno i s Hi). Qed.

(** After [ws.close()] on the stream of [wsRef], or with no stream in
    [wsRef], nothing is connecting or open. *)
Lemma ws_close_no_live (h : Hook) (ws : nat) :
  one_stream h -> wsRef h = Some ws -> no_live (ws_close ws h).
Proof.
  intros Hone Hws i s Hi Hlive. simpl in Hi.
  rewrite list_lookup_alter in Hi. case_decide as Heq.
  - subst i. destruct (sockets h !! ws) as [s0|]; simplify_eq/=.
    by apply close_socket_not_live in Hlive.
  - specialize (Hone i s Hi Hlive). congruence.
Qed.

Lemma no_ref_no_live (h : Hook) :
  one_stream h -> wsRef h = None -> no_live h.
Proof.
  intros Hone Hws i s Hi Hlive. specialize (Hone i s Hi Hlive). congruence.
Qed.

Section invariant.

Variable options : Options.
Variable JSON_parse : string -> option Json.

(** What [connect] does when it goes ahead: the stream of [wsRef], if
    any, is closed first; then a new stream is made and stored. *)
Lemma connect_authenticated (sc : Scope) (h : Hook) :
  scope_isAuthenticated sc = true ->
  let closed := match wsRef h with
                | Some ws => ws_close ws h
                | None => h
                end in
  sockets (connect options sc h) =
    sockets closed ++
      [{| ws_url := url options +:+ "?token=" +:+
                      js_string "null" (localStorage h !! "access_token");
          readyState := CONNECTING; ws_scope := sc |}] /\
  wsRef (connect options sc h) = Some (length (sockets h)) /\
  timers (connect options sc h) = timers h.
Proof.
  intros Hauth. unfold connect. rewrite Hauth. simpl.
  destruct (wsRef h) as [ws|]; simpl; [|done].
  by rewrite length_alter.
Qed.

Lemma connect_one_stream (sc : Scope) (h : Hook) :
  one_stream h -> one_stream (connect options sc h).
Proof.
  intros Hone. destruct (scope_isAuthenticated sc) eqn:Hauth.
  2:{ unfold connect. by rewrite Hauth. }
  destruct (connect_authenticated sc h Hauth) as (Hsockets & Href & _).
  assert (Hno : no_live (match wsRef h with
                         | Some ws => ws_close ws h
                         | None => h
                         end) /\
                length (sockets (match wsRef h with
                                 | Some ws => ws_close ws h
                                 | None => h
                                 end)) = length (sockets h)).
  { destruct (wsRef h) as [ws|] eqn:Hws.
    - split; [by apply ws_close_no_live|]. simpl. by rewrite length_alter.
    - split; [by apply no_ref_no_live|done]. }
  destruct Hno as [Hno Hlen].
  intros i s Hi Hlive. rewrite Href. rewrite Hsockets in Hi.
  apply lookup_app_Some in Hi as [Hi|[Hge Hi]].
  - by destruct (Hno i s Hi).
  - rewrite Hlen in Hge, Hi.
    destruct (i - length (sockets h))%nat eqn:Hd; [|done].
    f_equal. lia.
Qed.

Lemma disconnect_no_live (h : Hook) :
  one_stream h -> no_live (disconnect h) /\ wsRef (disconnect h) = None.
Proof.
  intros Hone. unfold disconnect.
  set (h1 := match reconnectTimeoutRef h with
             | Some t => clearTimeout t h
             | None => h
             end).
  assert (Hone1 : one_stream h1).
  { unfold h1. by destruct (reconnectTimeoutRef h). }
  destruct (wsRef h1) as [ws|] eqn:Hws.
  - split; [|done].
    intros i s Hi. apply (ws_close_no_live h1 ws Hone1 Hws i s). exact Hi.
  - split; [by apply no_ref_no_live|done].
Qed.

Lemma render_one_stream (h : Hook) :
  one_stream h -> one_stream (render options h).
Proof.
  intros Hone. unfold render.
  destruct (rendered h) as [previous|].
  - case_decide; [done|].
    destruct (store_isAuthenticated h); simpl.
    + apply connect_one_stream.
      apply (one_stream_same (disconnect h)); [done|done|].
      apply no_live_one_stream. by apply disconnect_no_live.
    + apply (one_stream_same (disconnect h)); [done|done|].
      apply no_live_one_stream. by apply disconnect_no_live.
  - destruct (store_isAuthenticated h); simpl; [|done].
    apply connect_one_stream. by apply (one_stream_same h).
Qed.

Lemma onclose_same (sc : Scope) (h : Hook) :
  sockets (onclose options sc h) = sockets h /\
  wsRef (onclose options sc h) = wsRef h.
Proof.
  unfold onclose, optional_call.
  by destruct (onDisconnect options), (_ <? _)%Z.
Qed.

Lemma onopen_same (sc : Scope) (h : Hook) :
  sockets (onopen options sc h) = sockets h /\
  wsRef (onopen options sc h) = wsRef h.
Proof. unfold onopen. by destruct (onConnect options). Qed.

Lemma onmessage_same (sc : Scope) (event_data : string) (h : Hook) :
  sockets (onmessage options JSON_parse sc event_data h) = sockets h /\
  wsRef (onmessage options JSON_parse sc event_data h) = wsRef h.
Proof.
  unfold onmessage. destruct (JSON_parse event_data) as [message|]; [|done].
  destruct (onMessage options) as [handler|]; [|done].
  by destruct (handler message).
Qed.

Lemma sendMessage_same (message : Json) (h : Hook) :
  sockets (sendMessage message h) = sockets h /\
  wsRef (sendMessage message h) = wsRef h.
Proof.
  unfold sendMessage. by repeat case_match.
Qed.

(** A socket event changes the state of one stream; when the new state is
    not a live one, or the stream was live before, [wsRef] still names
    every live stream. *)
Lemma update_socket_one_stream (ws : nat) (st : ReadyState) (h : Hook) :
  (forall s, sockets h !! ws = Some s ->
     live (set_readyState st s) -> live s) ->
  one_stream h -> one_stream (update_socket ws st h).
Proof.
  intros Hst Hone i s Hi Hlive. simpl in *.
  rewrite list_lookup_alter in Hi. case_decide as Heq.
  - subst i. destruct (sockets h !! ws) as [s0|] eqn:Hs0; simplify_eq/=.
    apply (Hone ws s0 Hs0). by apply Hst.
  - by apply (Hone i s).
Qed.

Lemma step_one_stream (h h' : Hook) (e : Event) :
  step options JSON_parse h e = Some h' -> one_stream h -> one_stream h'.
Proof.
  intros Hstep Hone. destruct e; simpl in Hstep.
  - simplify_eq. by apply render_one_stream.
  - simplify_eq. by apply (one_stream_same h).
  - destruct (sockets h !! ws) as [s|] eqn:Hs; [|done].
    destruct (readyState s) eqn:Hrs; simplify_eq.
    destruct (onopen_same (ws_scope s) (update_socket ws OPEN h)) as [H1 H2].
    eapply one_stream_same; [exact H1|exact H2|].
    apply update_socket_one_stream; [|done].
    intros s0 Hs0 _. simplify_eq. by left.
  - destruct (sockets h !! ws) as [s|] eqn:Hs; [|done].
    destruct (readyState s) eqn:Hrs; simplify_eq.
    destruct (onmessage_same (ws_scope s) event_data h) as [H1 H2].
    by eapply one_stream_same.
  - destruct (sockets h !! ws) as [s|] eqn:Hs; [|done].
    destruct (readyState s) eqn:Hrs; simplify_eq;
      by apply (one_stream_same h).
  - destruct (sockets h !! ws) as [s|] eqn:Hs; [|done].
    assert (Hclosed : one_stream (onclose options (ws_scope s)
                                   (update_socket ws CLOSED h))).
    { destruct (onclose_same (ws_scope s) (update_socket ws CLOSED h))
        as [H1 H2].
      eapply one_stream_same; [exact H1|exact H2|].
      apply update_socket_one_stream; [|done].
      intros s0 _ [Hl|Hl]; discriminate. }
    destruct (readyState s); by simplify_eq.
  - destruct (timers h !! t) as [tm|]; [|done].
    destruct (timer_state tm); simplify_eq.
    unfold reconnect. apply connect_one_stream.
    by apply (one_stream_same h).
  - simplify_eq. apply no_live_one_stream. by apply disconnect_no_live.
  - simplify_eq. destruct (sendMessage_same message h) as [H1 H2].
    by eapply one_stream_same.
Qed.

Lemma run_one_stream (events : list Event) :
  forall h h',
  run options JSON_parse events h = Some h' -> one_stream h -> one_stream h'.
Proof.
  induction events as [|e events IH]; intros h h' Hrun Hone; simpl in Hrun.
  - by simplify_eq.
  - destruct (step options JSON_parse h e) as [h1|] eqn:Hstep; [|done].
    apply (IH h1 h' Hrun). by apply (step_one_stream h h1 e).
Qed.

(** C10. In every state the hook can reach, [wsRef] names the only stream
    that can be connecting or open, so two such streams never exist side
    by side; and a [connect] that goes ahead while [wsRef] holds a stream
    closes that stream before it makes the new one. *)
Theorem at_most_one_live_stream (authenticated : bool)
    (storage : gmap string string) (events : list Event) (h : Hook) :
  run options JSON_parse events (initial authenticated storage) = Some h ->
  one_stream h /\
  (forall i j s s', sockets h !! i = Some s -> sockets h !! j = Some s' ->
     live s -> live s' -> i = j) /\
  (forall sc ws s, scope_isAuthenticated sc = true ->
     wsRef h = Some ws -> sockets h !! ws = Some s ->
     sockets (connect options sc h) !! ws = Some (close_socket s) /\
     ~ live (close_socket s) /\
     wsRef (connect options sc h) = Some (length (sockets h)) /\
     one_stream (connect options sc h)).
Proof.
  intros Hrun.
  assert (Hone : one_stream h).
  { apply (run_one_stream events _ _ Hrun). by intros i s Hi. }
  split; [done|]. split.
  - intros i j s s' Hi Hj Hs Hs'.
    pose proof (Hone i s Hi Hs) as H1. pose proof (Hone j s' Hj Hs') as H2.
    congruence.
  - intros sc ws s Hauth Href Hs.
    destruct (connect_authenticated sc h Hauth) as (Hsockets & Href' & _).
    rewrite Href in Hsockets. split; [|split; [|split]].
    + rewrite Hsockets. apply lookup_app_l_Some. simpl.
      by rewrite list_lookup_alter_eq, Hs.
    + apply close_socket_not_live.
    + done.
    + by apply connect_one_stream.
Qed.

End invariant.

Lemma at_most_one_live_stream_witness :
  exists h,
    run scenario_C parse_literals failing_streams signed_in = Some h /\
    wsRef h = Some 7%nat /\ one_stream h.
Proof.
  exists (default signed_in
    (run scenario_C parse_literals failing_streams signed_in)).
  split; [vm_compute; reflexivity|]. split; [vm_compute; reflexivity|].
  destruct (at_most_one_live_stream scenario_C parse_literals true
              {[ "access_token" := "A1" ]} failing_streams
              (default signed_in
                 (run scenario_C parse_literals failing_streams signed_in)))
    as [Hone _]; [vm_compute; reflexivity | exact Hone].
Defined.

End UseWebSocketProofs.

(* ===================================================================== *)
(** ** More about the interceptors: other replies, bounds, the store *)
(* ===================================================================== *)

Module ApiClientMore.
Import ApiClient ApiClientProofs.

Lemma settle_response (c : Config) (reply : option Response)
    (e : AxiosError) :
  settle c reply = inr e -> response e = reply.
Proof.
  unfold settle. intros Hs.
  destruct reply as [r|]; [destruct (_ && _)|]; by simplify_eq.
Qed.

(** The first reply settles a request that is not a 401, or that carries
    the [_retry] mark. *)
Lemma execute_first_reply (c : Config) (w : World)
    (reply : option Response) (more : list (option Response)) :
  _retry c = true \/ (forall r, reply = Some r -> ~ unauthorized r) ->
  execute c w (reply :: more) =
    (issue (Send (request_interceptor w c)) w,
     Done (match settle (request_interceptor w c) reply with
           | inl r => Resolved r
           | inr e => Rejected (AxiosErr e)
           end)).
Proof.
  intros Hpass. unfold execute. rewrite (client_S 1).
  cbn [run]. unfold send_settled.
  destruct (settle (request_interceptor w c) reply) as [r|e] eqn:Hs.
  { by rewrite run_done. }
  unfold response_rejected, status_is.
  rewrite (settle_config _ _ _ Hs), request_interceptor_retry.
  rewrite (settle_response _ _ _ Hs).
  assert (Hguard : (match reply with
                    | Some r => (status r =? 401)%Z
                    | None => false
                    end && negb (_retry c)) = false).
  { destruct Hpass as [->|Hno]; [by rewrite andb_false_r|].
    destruct reply as [r|]; [|done].
    destruct (status r =? 401)%Z eqn:H401; [|done].
    apply Z.eqb_eq in H401. by destruct (Hno r eq_refl). }
  rewrite Hguard. by rewrite run_done.
Qed.

(** X1. The first reply settles the request whenever it is not a 401, or
    the request carries the [_retry] mark: a status in [200, 300) resolves
    the promise, everything else (a network failure included) rejects it
    with the error of that reply.  No refresh call is made, nothing is
    resent, and the store and the location are as before. *)
Theorem first_reply_settles (c : Config) (w : World)
    (reply : option Response) (more : list (option Response)) :
  _retry c = true \/ (forall r, reply = Some r -> ~ unauthorized r) ->
  let st := execute c w (reply :: more) in
  st.2 = Done (match settle (request_interceptor w c) reply with
               | inl r => Resolved r
               | inr e => Rejected (AxiosErr e)
               end) /\
  requests st.1 = requests w ++ [Send (request_interceptor w c)] /\
  refresh_calls st.1 = refresh_calls w /\
  localStorage st.1 = localStorage w /\
  location_href st.1 = location_href w.
Proof.
  intros Hpass. cbv zeta. rewrite execute_first_reply by done.
  repeat split. unfold refresh_calls. simpl.
  rewrite filter_app, length_app. simpl. lia.
Qed.

Lemma first_reply_settles_witness :
  let st := execute GET_x scenario_world [None; Some reply_ok] in
  st.2 = Done (Rejected (AxiosErr
           {| config := request_interceptor scenario_world GET_x;
              response := None |})) /\
  refresh_calls st.1 = 0%nat.
Proof.
  destruct (first_reply_settles GET_x scenario_world None [Some reply_ok])
    as (Hres & _ & Hcalls & _).
  { right. intros r Hr. discriminate Hr. }
  exact (conj Hres Hcalls).
Defined.

(** X2. Whatever the request and whatever the network answers, the nested
    call of the client inside its own rejected handler ends: the request
    makes at most one refresh call and is sent at most twice. *)
Theorem request_exchanges_bounded (c : Config) (w : World)
    (replies : list (option Response)) :
  (execute c w replies).2 <> OutOfFuel /\
  (refresh_calls (execute c w replies).1 <= S (refresh_calls w))%nat /\
  (length (sends (execute c w replies).1) <= 2 + length (sends w))%nat.
Proof.
  destruct (execute_exchanges c w replies)
    as (Hfuel & c1 & tok & c2 & done & [rest Hpre] & Hreq).
  split; [done|].
  unfold refresh_calls, sends. rewrite Hreq.
  rewrite filter_app, omap_app, !length_app.
  destruct done as [|a [|b [|d [|? ?]]]]; simplify_eq/=; lia.
Qed.

(** What one request can do to the store and the location: nothing; or
    write [access_token]; or remove both tokens and go to the entry
    point. *)
Lemma execute_store (c : Config) (w : World)
    (replies : list (option Response)) :
  let st := execute c w replies in
  (localStorage st.1 = localStorage w /\
   location_href st.1 = location_href w) \/
  (exists access,
     localStorage st.1 = <["access_token" := access]> (localStorage w) /\
     location_href st.1 = location_href w) \/
  (localStorage st.1 =
     delete "refresh_token" (delete "access_token" (localStorage w)) /\
   location_href st.1 = "/auth").
Proof.
  cbv zeta. unfold execute. rewrite (client_S 1).
  set (c1 := request_interceptor w c). set (w1 := issue (Send c1) w).
  destruct replies as [|r1 rest]; [by left|].
  cbn [run].
  destruct (_retry c1) eqn:Hretry.
  { destruct (retried_settles (client 1) c1 r1 w1 Hretry) as [Hfin Hw].
    destruct (run_finished rest _ Hfin) as [_ Hw'].
    rewrite Hw', Hw. by left. }
  unfold send_settled, response_rejected.
  destruct (settle c1 r1) as [r|e] eqn:Hs.
  { rewrite run_done. by left. }
  rewrite (settle_config _ _ _ Hs), Hretry.
  destruct (status_is 401 e); cbn [andb negb].
  2:{ rewrite run_done. by left. }
  set (tok := getItem "refresh_token" w1). set (w2 := issue _ w1).
  destruct rest as [|r2 rest]; [by left|].
  cbn [run]. unfold refresh_settled.
  assert (Hcatch : forall err,
    localStorage (run rest (refresh_failed err w2)).1 =
      delete "refresh_token" (delete "access_token" (localStorage w)) /\
    location_href (run rest (refresh_failed err w2)).1 = "/auth").
  { intros err. unfold refresh_failed. by rewrite run_done. }
  destruct (settle (refresh_config tok) r2) as [rr|err];
    [|right; right; apply Hcatch].
  destruct (data rr) as [fields|]; [|right; right; apply Hcatch].
  rewrite (client_S 0).
  set (w3 := setItem _ _ w2). set (c2 := request_interceptor w3 _).
  assert (_retry c2 = true) as Hretry2.
  { unfold c2. by rewrite request_interceptor_retry. }
  right. left. exists (js_string "undefined" (fields !! "access")).
  destruct rest as [|r3 rest]; [done|].
  cbn [run].
  destruct (retried_settles (client 0) c2 r3 (issue (Send c2) w3) Hretry2)
    as [Hfin Hw].
  destruct (run_finished rest _ Hfin) as [_ Hw'].
  by rewrite Hw', Hw.
Qed.

(** X3. What a request never does to the store: a key other than
    [access_token] and [refresh_token] keeps its value; the refresh value
    is never written, it stays or it is removed; and the page goes nowhere
    but to the entry point. *)
Theorem request_store_footprint (c : Config) (w : World)
    (replies : list (option Response)) :
  let st := execute c w replies in
  (forall key, key <> "access_token" -> key <> "refresh_token" ->
     getItem key st.1 = getItem key w) /\
  (getItem "refresh_token" st.1 = getItem "refresh_token" w \/
   getItem "refresh_token" st.1 = None) /\
  (location_href st.1 = location_href w \/ location_href st.1 = "/auth").
Proof.
  cbv zeta. unfold getItem.
  destruct (execute_store c w replies)
    as [[-> ->]|[(access & -> & ->)|[-> ->]]].
  - split; [done|]. split; by left.
  - split; [|split; left; [by rewrite lookup_insert_ne|done]].
    intros key Ha _. by rewrite lookup_insert_ne.
  - split; [|split; right; [apply lookup_delete_eq|done]].
    intros key Ha Hr. by rewrite !lookup_delete_ne.
Qed.

(** X4. A refresh response with a status in [200, 300) but without an
    [access] field is taken as a success: the text "undefined" is stored as
    the access value and the request is resent with [Bearer undefined]. *)
Theorem refresh_without_access_field (c : Config) (w : World)
    (r1 rr : Response) (fields : gmap string string) :
  _retry c = false -> unauthorized r1 ->
  fulfilled rr -> data rr = Some fields -> fields !! "access" = None ->
  let st := execute c w [Some r1; Some rr] in
  getItem "access_token" st.1 = Some "undefined" /\
  exists c2,
    last (requests st.1) = Some (Send c2) /\
    Authorization c2 = Some "Bearer undefined" /\
    st.2 = Await (Send c2) (send_settled (client 0) c2).
Proof.
  intros Hfresh H401 Hok Hdata Hnone. cbv zeta.
  rewrite (execute_refreshed c w r1 rr fields) by done.
  rewrite Hnone. simpl. split.
  - unfold getItem. simpl. apply lookup_insert_eq.
  - eexists. split; [by rewrite last_snoc|]. by split.
Qed.

Lemma refresh_without_access_field_witness :
  getItem "access_token"
    (execute GET_x scenario_world
       [Some reply_401; Some {| status := 200%Z; data := Some ∅ |}]).1
  = Some "undefined".
Proof.
  apply (refresh_without_access_field GET_x scenario_world reply_401
           {| status := 200%Z; data := Some ∅ |} ∅);
    [reflexivity | reflexivity | unfold fulfilled; simpl; lia
    | reflexivity | reflexivity].
Defined.

(** X5. The access value written by a refresh is the credential of the
    next request: once a request has been refreshed with a non-empty
    access value, any request made afterwards leaves with
    [Bearer] and that value, whatever header its caller gave it. *)
Theorem refreshed_token_reaches_next_request (c next : Config) (w : World)
    (r1 rr : Response) (r3 : option Response)
    (fields : gmap string string) (access : string) :
  _retry c = false -> unauthorized r1 ->
  fulfilled rr -> data rr = Some fields ->
  fields !! "access" = Some access -> access <> "" ->
  let st := execute c w [Some r1; Some rr; r3] in
  exists sent,
    (execute next st.1 []).2 = Await (Send sent)
                                 (send_settled (client 1) sent) /\
    Authorization sent = Some ("Bearer " +:+ access) /\
    method sent = method next /\ url sent = url next /\
    body sent = body next.
Proof.
  intros Hfresh H401 Hok Hdata Haccess Hne. cbv zeta.
  change [Some r1; Some rr; r3] with ([Some r1; Some rr] ++ [r3]).
  rewrite execute_app, (execute_refreshed c w r1 rr fields) by done.
  rewrite Haccess. cbn [run js_string].
  set (c2 := set_Authorization _ _). set (w3 := issue (Send c2) _).
  assert (Hc2 : _retry c2 = true) by done.
  destruct (retried_settles (client 0) c2 r3 w3 Hc2) as [_ Hw].
  unfold execute. rewrite (client_S 1). cbn [run snd].
  eexists. split; [reflexivity|].
  unfold request_interceptor, getItem. rewrite Hw. unfold w3. simpl.
  rewrite lookup_insert_eq. simpl.
  assert (String.eqb access "" = false) as ->.
  { by apply String.eqb_neq. }
  done.
Qed.

Lemma refreshed_token_reaches_next_request_witness :
  exists sent,
    (execute POST_y
       (execute GET_x scenario_world
          [Some reply_401; Some reply_refreshed; Some reply_ok]).1 []).2
      = Await (Send sent) (send_settled (client 1) sent) /\
    Authorization sent = Some "Bearer A2".
Proof.
  destruct (refreshed_token_reaches_next_request GET_x POST_y scenario_world
              reply_401 reply_refreshed (Some reply_ok)
              {[ "access" := "A2" ]} "A2")
    as (sent & Hsent & Hauth & _);
    [reflexivity | reflexivity | unfold fulfilled; simpl; lia
    | reflexivity | reflexivity | discriminate | ].
  exists sent. split; [exact Hsent | exact Hauth].
Defined.

End ApiClientMore.

(* ===================================================================== *)
(** ** Properties of the methods built on the client *)
(* ===================================================================== *)

Module ApiMethodsProofs.
Import ApiClient ApiClientProofs ApiClientMore ApiMethods.

Lemma run_call_settled {A : Type} (replies : list (option Response))
    (w : World) (result : A + JsError) :
  run_call replies (w, settled result) = (w, settled result).
Proof. by destruct replies, result. Qed.

(** A method suspended in its [await] moves with the promise it waits
    for. *)
Lemma run_call_await {A : Type}
    (body : Response -> World -> World * (A + JsError))
    (replies : list (option Response)) :
  forall (promise : Async) (w : World),
  run_call replies (await promise body w) =
    let '(w', promise') := run replies (w, promise) in
    await promise' body w'.
Proof.
  induction replies as [|reply replies IH]; intros promise w; [done|].
  destruct promise as [[response|e]|call k|]; cbn [await run]; try done.
  - destruct (body response w) as [w' result].
    by rewrite run_call_settled.
  - cbn [run_call]. destruct (k reply w) as [w' promise']. apply IH.
Qed.

Lemma execute_fulfilled (c : Config) (w : World) (r : Response)
    (more : list (option Response)) :
  fulfilled r ->
  execute c w (Some r :: more) =
    (issue (Send (request_interceptor w c)) w, Done (Resolved r)).
Proof.
  intros Hok. rewrite execute_first_reply.
  - by rewrite settle_fulfilled.
  - right. intros r' Hr'. simplify_eq. unfold fulfilled, unauthorized in *.
    lia.
Qed.

(** A 401 followed by a refresh call that fails ends in the [catch]
    clause. *)
Lemma login_run (email password : string) (w : World)
    (replies : list (option Response)) :
  run_call replies (login email password w) =
    let '(w', promise) :=
      execute (request "post" "/auth/token/"
                 (Some (credentials email password))) w replies in
    await promise
      (fun response w =>
         match data response with
         | Some fields =>
             let access := js_string "undefined" (fields !! "access") in
             let refresh := js_string "undefined" (fields !! "refresh") in
             let w := setItem "access_token" access w in
             let w := setItem "refresh_token" refresh w in
             (w, inl fields)
         | None => (w, inr TypeError)
         end) w'.
Proof.
  unfold login, execute.
  destruct (client 2 _ w) as [w1 promise]. apply run_call_await.
Qed.

(** X6. A login answered with a status in [200, 300): the two fields of
    the body are stored as the access and the refresh value (the text
    "undefined" for a field that is missing) and the body is returned; a
    body that is [null] makes the method throw with the store untouched.
    The stored access value, when it is not empty, is the credential of
    every request made afterwards. *)
Theorem login_stores_tokens (email password : string) (w : World)
    (r : Response) (more : list (option Response)) :
  fulfilled r ->
  let st := run_call (Some r :: more) (login email password w) in
  match data r with
  | Some fields =>
      st.2 = Returned fields /\
      getItem "access_token" st.1
        = Some (js_string "undefined" (fields !! "access")) /\
      getItem "refresh_token" st.1
        = Some (js_string "undefined" (fields !! "refresh")) /\
      (forall access next,
         fields !! "access" = Some access -> access <> "" ->
         Authorization (request_interceptor st.1 next)
           = Some ("Bearer " +:+ access))
  | None =>
      st.2 = Thrown TypeError /\ localStorage st.1 = localStorage w
  end /\
  refresh_calls st.1 = refresh_calls w.
Proof.
  intros Hok. cbv zeta. rewrite login_run, execute_fulfilled by done.
  cbn [await]. destruct (data r) as [fields|]; cbn [fst snd settled].
  - split; [|unfold refresh_calls; simpl;
             rewrite filter_app, length_app; simpl; lia].
    split; [done|]. unfold getItem. simpl.
    split; [by rewrite lookup_insert_ne, lookup_insert_eq|].
    split; [by rewrite lookup_insert_eq|].
    intros access next Haccess Hne.
    unfold request_interceptor, getItem. simpl.
    rewrite lookup_insert_ne, lookup_insert_eq by done.
    rewrite Haccess. simpl.
    assert (String.eqb access "" = false) as -> by (by apply String.eqb_neq).
    done.
  - split; [done|]. unfold refresh_calls. simpl.
    rewrite filter_app, length_app. simpl. lia.
Qed.

Lemma login_stores_tokens_witness :
  let st := run_call [Some reply_tokens]
              (login "ann@example.org" "secret" signed_out_world) in
  st.2 = Returned {[ "access" := "A1"; "refresh" := "R1" ]} /\
  getItem "access_token" st.1 = Some "A1" /\
  getItem "refresh_token" st.1 = Some "R1".
Proof.
  destruct (login_stores_tokens "ann@example.org" "secret" signed_out_world
              reply_tokens [])
    as [(Hret & Ha & Hr & _) _]; [unfold fulfilled; simpl; lia|].
  exact (conj Hret (conj Ha Hr)).
Defined.

(** X7. A login answered 401 is treated like any rejected request: the
    interceptor makes a refresh call with whatever refresh value is stored
    (none for a new user).  When the refresh fails, the method throws the
    error the refresh branch caught (the rejection of the refresh call
    with its response, or the [TypeError] of reading a body that is
    [null]), not the 401 of the login; both tokens are removed and the
    page is sent to the entry point. *)
Theorem rejected_login_goes_through_refresh (email password : string)
    (w : World) (r1 : Response) (reply : option Response) :
  unauthorized r1 -> refresh_fails reply ->
  let st := run_call [Some r1; reply] (login email password w) in
  st.2 = Thrown (refreshError (getItem "refresh_token" w) reply) /\
  refresh_calls st.1 = S (refresh_calls w) /\
  last (requests st.1) = Some (RefreshPost (getItem "refresh_token" w)) /\
  getItem "access_token" st.1 = None /\
  getItem "refresh_token" st.1 = None /\
  location_href st.1 = "/auth".
Proof.
  intros H401 Hfail. cbv zeta. rewrite login_run.
  rewrite execute_refresh_fails by done.
  destruct (refresh_failed_SessionExpired
              (refreshError (getItem "refresh_token" w) reply)
              (issue (RefreshPost (getItem "refresh_token" w))
                 (issue (Send (request_interceptor w
                    (request "post" "/auth/token/"
                       (Some (credentials email password))))) w)))
    as (_ & Ha & Hr & Hloc).
  unfold refresh_failed in *. cbn [await fst snd] in *.
  split; [done|].
  split; [|split; [|done]].
  - unfold refresh_calls. simpl. rewrite <- app_assoc.
    rewrite filter_app, length_app. simpl. lia.
  - simpl. by rewrite last_snoc.
Qed.

Lemma rejected_login_goes_through_refresh_witness :
  let st := run_call [Some reply_401; Some reply_401]
              (login "ann@example.org" "wrong" signed_out_world) in
  st.2 = Thrown (AxiosErr {| config := refresh_config None;
                             response := Some reply_401 |}) /\
  last (requests st.1) = Some (RefreshPost None).
Proof.
  destruct (rejected_login_goes_through_refresh "ann@example.org" "wrong"
              signed_out_world reply_401 (Some reply_401))
    as (He & _ & Hlast & _);
    [reflexivity | left; unfold fulfilled; simpl; lia |].
  split; [exact He | exact Hlast].
Defined.

(** X8. [logout] talks to nobody and removes the two tokens, nothing
    else: every other key keeps its value, a second [logout] changes
    nothing, and the request interceptor leaves every later request as its
    caller built it. *)
Theorem logout_clears_the_session (w : World) :
  let st := logout w in
  st.2 = Returned tt /\
  getItem "access_token" st.1 = None /\
  getItem "refresh_token" st.1 = None /\
  (forall key, key <> "access_token" -> key <> "refresh_token" ->
     getItem key st.1 = getItem key w) /\
  requests st.1 = requests w /\
  location_href st.1 = location_href w /\
  logout st.1 = st /\
  (forall next, request_interceptor st.1 next = next).
Proof.
  cbv zeta. unfold logout, getItem. simpl.
  split; [done|].
  split; [by rewrite lookup_delete_ne, lookup_delete_eq|].
  split; [by rewrite lookup_delete_eq|].
  split; [intros key Ha Hr; by rewrite !lookup_delete_ne|].
  split; [done|]. split; [done|]. split.
  - unfold removeItem. simpl. do 2 f_equal.
    set (cleared := delete "refresh_token"
                      (delete "access_token" (localStorage w))).
    rewrite (delete_id cleared "access_token")
      by (unfold cleared; by rewrite lookup_delete_ne, lookup_delete_eq).
    apply delete_id. unfold cleared. apply lookup_delete_eq.
  - intros next. unfold request_interceptor, getItem. simpl.
    by rewrite lookup_delete_ne, lookup_delete_eq.
Qed.

Lemma get_data_run (path : string) (w : World)
    (replies : list (option Response)) :
  run_call replies (get_data path w) =
    let '(w', promise) := execute (request "get" path None) w replies in
    await promise (fun response w => (w, inl (data response))) w'.
Proof.
  unfold get_data, execute.
  destruct (client 2 _ w) as [w1 promise]. apply run_call_await.
Qed.

(** X9. The fetching methods inherit the refresh of the client: when the
    first reply is a 401, the refresh call succeeds and the resent request
    is answered with a status in [200, 300), the method returns the body
    of that last response, and the caller sees nothing of the 401. *)
Theorem fetch_returns_body_after_refresh (path : string) (w : World)
    (r1 rr r3 : Response) (fields : gmap string string) :
  unauthorized r1 -> fulfilled rr -> data rr = Some fields -> fulfilled r3 ->
  let st := run_call [Some r1; Some rr; Some r3] (get_data path w) in
  st.2 = Returned (data r3) /\
  getItem "access_token" st.1
    = Some (js_string "undefined" (fields !! "access")) /\
  length (sends st.1) = (2 + length (sends w))%nat.
Proof.
  intros H401 Hok Hdata Hok3. cbv zeta. rewrite get_data_run.
  change [Some r1; Some rr; Some r3] with ([Some r1; Some rr] ++ [Some r3]).
  rewrite execute_app, (execute_refreshed _ w r1 rr fields) by done.
  cbn [run]. unfold send_settled. rewrite settle_fulfilled by done.
  cbn [await fst snd settled]. split; [done|]. split.
  - unfold getItem. simpl. apply lookup_insert_eq.
  - unfold sends. simpl. rewrite <- !app_assoc, omap_app, length_app.
    simpl. lia.
Qed.

Lemma fetch_returns_body_after_refresh_witness :
  (run_call [Some reply_401; Some reply_refreshed; Some reply_ok]
     (getInstagramAccounts scenario_world)).2
  = Returned (Some {[ "ok" := "true" ]}).
Proof.
  apply (fetch_returns_body_after_refresh "/instagram-accounts/"
           scenario_world reply_401 reply_refreshed reply_ok
           {[ "access" := "A2" ]});
    [reflexivity | unfold fulfilled; simpl; lia | reflexivity
    | unfold fulfilled; simpl; lia].
Defined.

Lemma register_run (form : string) (w : World)
    (replies : list (option Response)) :
  run_call replies (register form w) =
    let '(w', promise) :=
      execute (request "post" "/auth/register/" (Some form)) w replies in
    await promise (fun response w => (w, inl (data response))) w'.
Proof.
  unfold register, execute.
  destruct (client 2 _ w) as [w1 promise]. apply run_call_await.
Qed.

(** X10. [register] does not sign the user in: answered with a status in
    [200, 300) it returns the body and leaves the store as it was, also
    when the body carries tokens. *)
Theorem register_stores_nothing (form : string) (w : World) (r : Response)
    (more : list (option Response)) :
  fulfilled r ->
  let st := run_call (Some r :: more) (register form w) in
  st.2 = Returned (data r) /\
  localStorage st.1 = localStorage w /\
  location_href st.1 = location_href w.
Proof.
  intros Hok. cbv zeta. by rewrite register_run, execute_fulfilled.
Qed.

Lemma register_stores_nothing_witness :
  let st := run_call [Some reply_tokens]
              (register "{email:ann@example.org}" signed_out_world) in
  st.2 = Returned (data reply_tokens) /\
  localStorage st.1 = localStorage signed_out_world.
Proof.
  destruct (register_stores_nothing "{email:ann@example.org}"
              signed_out_world reply_tokens [])
    as (Hret & Hstore & _); [unfold fulfilled; simpl; lia|].
  exact (conj Hret Hstore).
Defined.

End ApiMethodsProofs.

(* ===================================================================== *)
(** ** More about the hook: sending, order, renders, shape *)
(* ===================================================================== *)

Module UseWebSocketMore.
Import UseWebSocket UseWebSocketProofs HookShape.

(** *** The effects of the hook are a log *)

Lemma logs_more_refl (h h' : Hook) :
  effects h' = effects h -> logs_more h h'.
Proof. intros He. exists []. by rewrite He, app_nil_r. Qed.

Lemma logs_more_trans (h1 h2 h3 : Hook) :
  logs_more h1 h2 -> logs_more h2 h3 -> logs_more h1 h3.
Proof.
  intros (a1 & H1 & N1) (a2 & H2 & N2). exists (a1 ++ a2).
  split; [by rewrite H2, H1, app_assoc|].
  by rewrite forallb_app, N1, N2.
Qed.

Lemma logs_more_emit (e : Effect) (h : Hook) :
  is_send e = false -> logs_more h (emit e h).
Proof. intros He. exists [e]. split; [done|]. simpl. by rewrite He. Qed.

Lemma logs_more_optional (present : bool) (e : Effect) (h : Hook) :
  is_send e = false -> logs_more h (optional_call present e h).
Proof.
  intros He. destruct present; [by apply logs_more_emit|].
  by apply logs_more_refl.
Qed.

Section log.

Variable options : Options.
Variable JSON_parse : string -> option Json.

Lemma connect_effects (sc : Scope) (h : Hook) :
  effects (connect options sc h) = effects h.
Proof.
  unfold connect. destruct (scope_isAuthenticated sc); [|done].
  by destruct (wsRef h).
Qed.

Lemma disconnect_effects (h : Hook) : effects (disconnect h) = effects h.
Proof.
  unfold disconnect.
  destruct (reconnectTimeoutRef h); simpl; by destruct (wsRef h).
Qed.

Lemma render_effects (h : Hook) : effects (render options h) = effects h.
Proof.
  unfold render. cbv zeta.
  destruct (store_isAuthenticated h), (rendered h); try case_decide;
    try done; cbn [scope_isAuthenticated]; rewrite ?connect_effects;
    cbn [effects set_rendered]; by rewrite ?disconnect_effects.
Qed.

Lemma onclose_logs (sc : Scope) (h : Hook) :
  logs_more h (onclose options sc h).
Proof.
  unfold onclose, optional_call, logs_more.
  destruct (onDisconnect options), (_ <? _)%Z;
    eexists; (split; [simpl; rewrite <- ?app_assoc; reflexivity|done]).
Qed.

Lemma step_logs (h h' : Hook) (e : Event) :
  step options JSON_parse h e = Some h' ->
  is_sendMessage e = false -> logs_more h h'.
Proof.
  intros Hstep Hno. destruct e; simpl in Hstep, Hno; try done.
  - simplify_eq. apply logs_more_refl, render_effects.
  - simplify_eq. by apply logs_more_refl.
  - destruct (sockets h !! ws) as [s|]; [|done].
    destruct (readyState s); simplify_eq.
    unfold onopen, optional_call, logs_more.
    destruct (onConnect options);
      eexists; (split; [simpl; rewrite <- ?app_assoc; reflexivity|done]).
  - destruct (sockets h !! ws) as [s|]; [|done].
    destruct (readyState s); simplify_eq. unfold onmessage, logs_more.
    destruct (JSON_parse event_data) as [message|];
      [destruct (onMessage options) as [handler|];
         [destruct (handler message)|]|];
      eexists;
      (split; [simpl; rewrite <- ?app_assoc;
               first [reflexivity | symmetry; apply app_nil_r]|done]).
  - destruct (sockets h !! ws) as [s|]; [|done].
    destruct (readyState s); simplify_eq; by apply logs_more_emit.
  - destruct (sockets h !! ws) as [s|]; [|done].
    assert (logs_more h (onclose options (ws_scope s)
                           (update_socket ws CLOSED h)))
      by apply (onclose_logs (ws_scope s) (update_socket ws CLOSED h)).
    destruct (readyState s); by simplify_eq.
  - destruct (timers h !! t) as [tm|]; [|done].
    destruct (timer_state tm); simplify_eq. unfold reconnect.
    exists [console_log "Reconnecting..."].
    split; [by rewrite connect_effects|done].
  - simplify_eq. apply logs_more_refl, disconnect_effects.
Qed.

Lemma run_logs (events : list Event) :
  forall h h',
  run options JSON_parse events h = Some h' ->
  forallb (fun e => negb (is_sendMessage e)) events = true ->
  logs_more h h'.
Proof.
  induction events as [|e events IH]; intros h h' Hrun Hno;
    simpl in Hrun, Hno.
  - simplify_eq. by apply logs_more_refl.
  - apply andb_prop in Hno as [He Hno].
    destruct (step options JSON_parse h e) as [h1|] eqn:Hstep; [|done].
    eapply logs_more_trans; [|by apply (IH h1)].
    apply (step_logs h h1 e Hstep). by destruct (is_sendMessage e).
Qed.

(** X11. A message given to [sendMessage] while the stream in [wsRef] is
    not open is dropped with one warning, and it is not kept: whatever
    happens afterwards, a stream opening included, the hook sends nothing
    unless [sendMessage] is called again. *)
Theorem unsent_message_is_not_queued (message : Json) (h h' : Hook)
    (events : list Event) :
  (forall ws s, wsRef h = Some ws -> sockets h !! ws = Some s ->
     readyState s <> OPEN) ->
  forallb (fun e => negb (is_sendMessage e)) events = true ->
  run options JSON_parse events (sendMessage message h) = Some h' ->
  sendMessage message h = emit (console_warn "WebSocket not connected") h /\
  exists later,
    effects h' =
      effects h ++ console_warn "WebSocket not connected" :: later /\
    forallb (fun e => negb (is_send e)) later = true.
Proof.
  intros Hclosed Hno Hrun.
  assert (Hdrop : sendMessage message h
                  = emit (console_warn "WebSocket not connected") h).
  { unfold sendMessage. destruct (wsRef h) as [ws|] eqn:Hws; [|done].
    destruct (sockets h !! ws) as [s|] eqn:Hs; [|done]. simpl.
    specialize (Hclosed ws s eq_refl Hs).
    by destruct (readyState s). }
  split; [done|]. rewrite Hdrop in Hrun.
  destruct (run_logs events _ _ Hrun Hno) as (later & Hlater & Hsend).
  exists later. split; [|done]. rewrite Hlater. simpl.
  by rewrite <- app_assoc.
Qed.



End log.

(** *** Renders that replace the stream *)

Section renders.

Variable options : Options.
Variable JSON_parse : string -> option Json.

Lemma onopen_fields (sc : Scope) (h : Hook) :
  let h' := onopen options sc h in
  reconnectCount h' = 0%Z /\ isConnected h' = true /\
  store_isAuthenticated h' = store_isAuthenticated h /\
  rendered h' = rendered h /\ sockets h' = sockets h /\
  timers h' = timers h /\ wsRef h' = wsRef h /\
  reconnectTimeoutRef h' = reconnectTimeoutRef h.
Proof. unfold onopen, optional_call. by destruct (onConnect options). Qed.

Lemma disconnect_fields (h : Hook) (ws : nat) :
  wsRef h = Some ws ->
  sockets (disconnect h) = alter close_socket ws (sockets h) /\
  wsRef (disconnect h) = None /\
  length (timers (disconnect h)) = length (timers h) /\
  store_isAuthenticated (disconnect h) = store_isAuthenticated h /\
  reconnectCount (disconnect h) = reconnectCount h /\
  isConnected (disconnect h) = isConnected h.
Proof.
  intros Hws. unfold disconnect.
  destruct (reconnectTimeoutRef h); simpl; rewrite Hws; simpl;
    by rewrite ?length_alter.
Qed.

(** A render whose scope differs from the one of the memoised [connect],
    for an authenticated user: the whole of what it does. *)
Lemma render_replaces_stream (h : Hook) (prev : Scope) (ws : nat) :
  rendered h = Some prev ->
  prev <> mkScope true (reconnectCount h) ->
  store_isAuthenticated h = true ->
  wsRef h = Some ws ->
  let h' := render options h in
  reconnectCount h' = reconnectCount h /\
  isConnected h' = isConnected h /\
  wsRef h' = Some (length (sockets h)) /\
  exists s, sockets h' = alter close_socket ws (sockets h) ++ [s] /\
    readyState s = CONNECTING.
Proof.
  intros Hrend Hne Hauth Hws. unfold render. rewrite Hrend, Hauth.
  rewrite decide_False by done. simpl.
  unfold disconnect.
  destruct h as [ic rc wr tr au rd ss ts ls ef]. simpl in *. subst.
  destruct tr as [t|]; simpl; rewrite ?length_alter; repeat split; eauto.
Qed.

(** X13. A stream opens and React renders.  Opening sets [reconnectCount]
    to 0; the render keeps the stream exactly when the render before it
    saw the count 0, for only then [connect] keeps its identity.  When the
    render before it saw another count, as it does after a retry that
    React has rendered, the cleanup closes the stream that has just opened
    and the effect makes another one, while [isConnected] still says
    [true].  Which [connect] made the stream plays no part. *)
Theorem open_after_retry_is_replaced (h : Hook) (ws : nat) (s : Socket)
    (n : Z) :
  store_isAuthenticated h = true ->
  rendered h = Some (mkScope true n) ->
  wsRef h = Some ws -> sockets h !! ws = Some s ->
  readyState s = CONNECTING ->
  exists h',
    run options JSON_parse [WsOpen ws; Render] h = Some h' /\
    reconnectCount h' = 0%Z /\ isConnected h' = true /\
    if decide (n = 0%Z) then
      readyState <$> sockets h' !! ws = Some OPEN /\
      wsRef h' = Some ws /\
      length (sockets h') = length (sockets h)
    else
      readyState <$> sockets h' !! ws = Some CLOSING /\
      wsRef h' = Some (length (sockets h)) /\
      readyState <$> sockets h' !! length (sockets h) = Some CONNECTING /\
      length (sockets h') = S (length (sockets h)).
Proof.
  intros Hauth Hrend Hws Hs Hconn.
  set (h1 := onopen options (ws_scope s) (update_socket ws OPEN h)).
  assert (Hstep : step options JSON_parse h (WsOpen ws) = Some h1).
  { simpl. by rewrite Hs, Hconn. }
  destruct (onopen_fields (ws_scope s) (update_socket ws OPEN h))
    as (Hn1 & Hc1 & Hauth1 & Hrend1 & Hsock1 & _ & Hws1 & _).
  fold h1 in Hn1, Hc1, Hauth1, Hrend1, Hsock1, Hws1. clearbody h1.
  simpl in Hauth1, Hrend1, Hsock1, Hws1.
  assert (Hlook1 : sockets h1 !! ws = Some (set_readyState OPEN s)).
  { by rewrite Hsock1, list_lookup_alter_eq, Hs. }
  exists (render options h1). split; [cbn [run]; by rewrite Hstep|].
  case_decide as Hn.
  - assert (render options h1 = h1) as ->.
    { unfold render. rewrite Hrend1, Hrend, Hauth1, Hauth, Hn1, Hn.
      by rewrite decide_True. }
    split; [done|]. split; [done|].
    split; [by rewrite Hlook1|]. split; [by rewrite Hws1|].
    by rewrite Hsock1, length_alter.
  - destruct (render_replaces_stream h1 (mkScope true n) ws)
      as (Hn2 & Hc2 & Hws2 & s' & Hsock2 & Hs').
    { by rewrite Hrend1. }
    { rewrite Hn1. intros Heq. by injection Heq. }
    { by rewrite Hauth1. }
    { by rewrite Hws1. }
    assert (Hlen : length (sockets h1) = length (sockets h))
      by (by rewrite Hsock1, length_alter).
    apply lookup_lt_Some in Hs as Hlt.
    split; [by rewrite Hn2|]. split; [by rewrite Hc2|].
    rewrite Hsock2, Hws2, Hlen. split; [|split; [done|split]].
    + rewrite lookup_app_l by (by rewrite length_alter, Hlen).
      by rewrite list_lookup_alter_eq, Hlook1.
    + rewrite lookup_app_r by (rewrite length_alter; lia).
      rewrite length_alter, Hlen, Nat.sub_diag. simpl. by rewrite Hs'.
    + rewrite length_app, length_alter, Hlen. simpl. lia.
Qed.

Lemma render_signed_out (h : Hook) (prev : Scope) :
  store_isAuthenticated h = false -> rendered h = Some prev ->
  scope_isAuthenticated prev = true ->
  render options h =
    set_rendered (Some (mkScope false (reconnectCount h))) (disconnect h).
Proof.
  intros Hout Hrend Hprev. unfold render. rewrite Hrend, Hout.
  rewrite decide_False; [done|]. intros ->. done.
Qed.

(** X14. The store reports that the user has signed out while a stream is
    open.  The render closes the stream and makes no other; but the close
    event runs the close handler of the closed stream, which belongs to a
    render of the signed-in user: with its count below the maximum it sets
    a timer, and the timer calls the [connect] of that render, which makes
    a new stream although the user is signed out. *)
Theorem stream_comes_back_after_sign_out (h : Hook) (ws : nat) (s : Socket)
    (prev : Scope) :
  rendered h = Some prev -> scope_isAuthenticated prev = true ->
  wsRef h = Some ws -> sockets h !! ws = Some s -> readyState s = OPEN ->
  scope_isAuthenticated (ws_scope s) = true ->
  (scope_reconnectCount (ws_scope s) < maxReconnectAttempts options)%Z ->
  exists h1 h',
    run options JSON_parse [StoreAuth false; Render] h = Some h1 /\
    wsRef h1 = None /\ length (sockets h1) = length (sockets h) /\
    readyState <$> sockets h1 !! ws = Some CLOSING /\
    run options JSON_parse [WsClose ws; TimerFire (length (timers h))] h1
      = Some h' /\
    store_isAuthenticated h' = false /\
    wsRef h' = Some (length (sockets h)) /\
    readyState <$> sockets h' !! length (sockets h) = Some CONNECTING /\
    status h' = Connecting.
Proof.
  intros Hrend Hprev Hws Hs Hopen Hsc Hlt.
  set (h0 := set_store_isAuthenticated false h).
  destruct (disconnect_fields h0 ws Hws)
    as (Hsock1 & Hws1 & Htm1 & Hauth1 & _).
  set (h1 := render options h0).
  assert (Hh1 : h1 = set_rendered (Some (mkScope false (reconnectCount h0)))
                       (disconnect h0)).
  { by apply (render_signed_out h0 prev). }
  assert (Hlook1 : sockets h1 !! ws = Some (close_socket s)).
  { rewrite Hh1. cbn [sockets set_rendered].
    rewrite Hsock1, list_lookup_alter_eq.
    cbn [sockets h0 set_store_isAuthenticated].
    by rewrite Hs. }
  assert (Hclosing : readyState (close_socket s) = CLOSING).
  { unfold close_socket. by rewrite Hopen. }
  assert (Hscope : ws_scope (close_socket s) = ws_scope s).
  { unfold close_socket. by rewrite Hopen. }
  assert (Hlen1 : length (sockets h1) = length (sockets h)).
  { rewrite Hh1. cbn [sockets set_rendered]. by rewrite Hsock1, length_alter. }
  assert (Htimers1 : length (timers h1) = length (timers h)).
  { rewrite Hh1. cbn [timers set_rendered]. by rewrite Htm1. }
  assert (Hwsref1 : wsRef h1 = None) by (by rewrite Hh1).
  assert (Hstore1 : store_isAuthenticated h1 = false) by (by rewrite Hh1).
  assert (Hrun1 : run options JSON_parse [StoreAuth false; Render] h
                  = Some h1) by done.
  clearbody h1. clear Hh1.
  (* the close event of the closed stream *)
  set (h2 := onclose options (ws_scope s) (update_socket ws CLOSED h1)).
  assert (Hstep2 : step options JSON_parse h1 (WsClose ws) = Some h2).
  { rewrite (step_WsClose options JSON_parse h1 ws (close_socket s) Hlook1)
      by (by rewrite Hclosing).
    by rewrite Hscope. }
  destruct (onclose_fields options (ws_scope s) (update_socket ws CLOSED h1))
    as (_ & Hstore2 & _ & Hsock2 & Hws2 & _ & Htm2).
  fold h2 in Hstore2, Hsock2, Hws2, Htm2. clearbody h2.
  simpl in Hstore2, Hsock2, Hws2, Htm2.
  apply Z.ltb_lt in Hlt. rewrite Hlt in Htm2.
  (* the timer *)
  assert (Htimer : timers h2 !! length (timers h) =
            Some {| timer_scope := ws_scope s;
                    timer_delay := reconnectInterval options;
                    timer_state := Pending |}).
  { rewrite Htm2, lookup_app_r by lia.
    by rewrite Htimers1, Nat.sub_diag. }
  set (h3 := reconnect options (ws_scope s)
               (set_timers (alter fire_timer (length (timers h)) (timers h2))
                  h2)).
  assert (Hstep3 : step options JSON_parse h2 (TimerFire (length (timers h)))
                   = Some h3).
  { by rewrite (step_TimerFire options JSON_parse h2 _ _ Htimer). }
  destruct (reconnect_fields options (ws_scope s)
              (set_timers (alter fire_timer (length (timers h)) (timers h2))
                 h2) Hsc)
    as (_ & Hstore3 & _ & _ & Hws3 & old & s' & Hold & Hsock3 & Hs' & _).
  fold h3 in Hstore3, Hws3, Hsock3. clearbody h3.
  simpl in Hstore3, Hws3, Hold.
  assert (Hlen2 : length (sockets h2) = length (sockets h)).
  { by rewrite Hsock2, length_alter. }
  exists h1, h3. split; [done|]. split; [done|]. split; [done|].
  split; [by rewrite Hlook1; simpl; rewrite Hclosing|].
  split; [cbn [run]; by rewrite Hstep2, Hstep3|].
  split; [by rewrite Hstore3, Hstore2|].
  split; [by rewrite Hws3, Hlen2|]. split.
  - rewrite Hsock3, lookup_app_r by lia.
    rewrite Hold, Hlen2, Nat.sub_diag. simpl. by rewrite Hs'.
  - unfold status. by rewrite Hsock3, last_snoc, Hs'.
Qed.

(** X15. The close event of a stream that the hook has replaced runs the
    same close handler as any other: [isConnected] becomes [false] while
    the stream in [wsRef] is open and [sendMessage] still transmits on
    it. *)
Theorem late_close_hides_open_stream (h : Hook) (current old : nat)
    (s s_old : Socket) (message : Json) :
  wsRef h = Some current -> sockets h !! current = Some s ->
  readyState s = OPEN ->
  old <> current -> sockets h !! old = Some s_old ->
  readyState s_old <> CLOSED ->
  exists h',
    step options JSON_parse h (WsClose old) = Some h' /\
    isConnected h' = false /\
    wsRef h' = Some current /\ sockets h' !! current = Some s /\
    sendMessage message h' = emit (ws_send current message) h'.
Proof.
  intros Hws Hs Hopen Hne Hold Hnot.
  destruct (onclose_fields options (ws_scope s_old)
              (update_socket old CLOSED h))
    as (_ & _ & _ & Hsock & Hws' & Hconn & _).
  simpl in Hsock, Hws'.
  assert (Hlook : sockets (onclose options (ws_scope s_old)
                             (update_socket old CLOSED h)) !! current
                  = Some s).
  { by rewrite Hsock, list_lookup_alter_ne. }
  eexists. split; [by apply step_WsClose|].
  split; [done|]. split; [by rewrite Hws'|]. split; [done|].
  unfold sendMessage. by rewrite Hws', Hws, Hlook; simpl; rewrite Hopen.
Qed.

End renders.

(** *** The shape of every reachable state *)

Section shape.

Variable options : Options.
Variable JSON_parse : string -> option Json.

Lemma well_formed_same (h h' : Hook) :
  reconnectCount h' = reconnectCount h -> wsRef h' = wsRef h ->
  reconnectTimeoutRef h' = reconnectTimeoutRef h ->
  rendered h' = rendered h -> sockets h' = sockets h ->
  timers h' = timers h ->
  well_formed options h -> well_formed options h'.
Proof. unfold well_formed. by intros -> -> -> -> -> ->. Qed.

Lemma close_socket_scope (s : Socket) :
  ws_scope (close_socket s) = ws_scope s.
Proof. unfold close_socket. by destruct (readyState s). Qed.

Lemma ws_close_well_formed (ws : nat) (h : Hook) :
  well_formed options h -> well_formed options (ws_close ws h).
Proof.
  intros (Hn & Hws & Ht & Hr & Hs & Htm). unfold well_formed. simpl.
  rewrite length_alter. repeat split; try done.
  apply Forall_alter; [done|]. intros s _. by rewrite close_socket_scope.
Qed.

Lemma update_socket_well_formed (ws : nat) (st : ReadyState) (h : Hook) :
  well_formed options h -> well_formed options (update_socket ws st h).
Proof.
  intros (Hn & Hws & Ht & Hr & Hs & Htm). unfold well_formed. simpl.
  rewrite length_alter. repeat split; try done.
  by apply Forall_alter.
Qed.

Lemma alter_timer_well_formed (f : Timer -> Timer) (t : nat) (h : Hook) :
  (forall tm, timer_scope (f tm) = timer_scope tm /\
              timer_delay (f tm) = timer_delay tm) ->
  well_formed options h ->
  well_formed options (set_timers (alter f t (timers h)) h).
Proof.
  intros Hf (Hn & Hws & Ht & Hr & Hs & Htm). unfold well_formed. simpl.
  rewrite length_alter. repeat split; try done.
  apply Forall_alter; [done|]. intros tm _.
  destruct (Hf tm) as [-> ->]. done.
Qed.

Lemma clearTimeout_well_formed (t : nat) (h : Hook) :
  well_formed options h -> well_formed options (clearTimeout t h).
Proof.
  apply alter_timer_well_formed. intros tm. unfold clear_timer.
  by destruct (timer_state tm).
Qed.

Lemma disconnect_well_formed (h : Hook) :
  well_formed options h -> well_formed options (disconnect h).
Proof.
  intros Hwf. unfold disconnect.
  set (h1 := match reconnectTimeoutRef h with
             | Some t => clearTimeout t h
             | None => h
             end).
  assert (Hwf1 : well_formed options h1).
  { unfold h1. destruct (reconnectTimeoutRef h); [|done].
    by apply clearTimeout_well_formed. }
  destruct (wsRef h1) as [ws|]; [|done].
  destruct (ws_close_well_formed ws h1 Hwf1)
    as (Hn & _ & Ht & Hr & Hs & Htm).
  unfold well_formed. simpl. repeat split; try done.
Qed.

Lemma connect_well_formed (sc : Scope) (h : Hook) :
  (0 <= scope_reconnectCount sc)%Z ->
  well_formed options h -> well_formed options (connect options sc h).
Proof.
  intros Hsc Hwf. unfold connect.
  destruct (scope_isAuthenticated sc) eqn:Hauth; [|done]. cbn [negb].
  set (h1 := match wsRef h with
             | Some ws => ws_close ws h
             | None => h
             end).
  assert (Hwf1 : well_formed options h1).
  { unfold h1. destruct (wsRef h); [|done]. by apply ws_close_well_formed. }
  destruct Hwf1 as (Hn & _ & Ht & Hr & Hs & Htm).
  unfold well_formed. simpl. rewrite length_app. simpl.
  repeat split; try done.
  - intros ws Heq. simplify_eq. lia.
  - apply Forall_app. split; [done|]. by apply Forall_singleton.
Qed.

Lemma onclose_well_formed (sc : Scope) (h : Hook) :
  connecting_scope sc ->
  well_formed options h -> well_formed options (onclose options sc h).
Proof.
  intros Hsc (Hn & Hws & Ht & Hr & Hs & Htm).
  unfold onclose, optional_call.
  destruct (onDisconnect options), (_ <? _)%Z eqn:Hlt;
    unfold well_formed; simpl; rewrite ?length_app; simpl;
    repeat split; try done;
    try (intros t Heq; simplify_eq; lia);
    (apply Forall_app; split; [done|]; apply Forall_singleton; simpl;
     apply Z.ltb_lt in Hlt; done).
Qed.

Lemma render_well_formed (h : Hook) :
  well_formed options h -> well_formed options (render options h).
Proof.
  intros Hwf. pose proof Hwf as (Hn & _). unfold render. cbv zeta.
  assert (Hset : forall h0, well_formed options h0 ->
            reconnectCount h0 = reconnectCount h ->
            well_formed options
              (set_rendered
                 (Some {| scope_isAuthenticated := store_isAuthenticated h;
                          scope_reconnectCount := reconnectCount h |}) h0)).
  { intros h0 (Hn0 & Hws & Ht & Hr & Hs & Htm) Hcount.
    unfold well_formed. simpl. repeat split; try done.
    intros sc Heq. by simplify_eq. }
  assert (Hcount : reconnectCount (disconnect h) = reconnectCount h).
  { unfold disconnect.
    destruct (reconnectTimeoutRef h); simpl; by destruct (wsRef h). }
  destruct (rendered h) as [prev|]; [case_decide; [done|]|];
    destruct (store_isAuthenticated h); cbn [scope_isAuthenticated];
    try apply connect_well_formed; try done;
    apply Hset; try done; by apply disconnect_well_formed.
Qed.

Lemma step_well_formed (h h' : Hook) (e : Event) :
  step options JSON_parse h e = Some h' ->
  well_formed options h -> well_formed options h'.
Proof.
  intros Hstep Hwf. pose proof Hwf as (Hn & _ & _ & _ & Hsock & Htm).
  destruct e; simpl in Hstep.
  - simplify_eq. by apply render_well_formed.
  - simplify_eq. by apply (well_formed_same h).
  - destruct (sockets h !! ws) as [s|] eqn:Hs; [|done].
    destruct (readyState s); simplify_eq.
    destruct (update_socket_well_formed ws OPEN h Hwf)
      as (_ & Hws' & Ht' & Hr' & Hs' & Htm').
    unfold onopen, optional_call.
    destruct (onConnect options); unfold well_formed; simpl;
      repeat split; done.
  - destruct (sockets h !! ws) as [s|] eqn:Hs; [|done].
    destruct (readyState s); simplify_eq. unfold onmessage.
    destruct (JSON_parse event_data) as [message|];
      [destruct (onMessage options) as [handler|];
         [destruct (handler message)|]|];
      by apply (well_formed_same h).
  - destruct (sockets h !! ws) as [s|] eqn:Hs; [|done].
    destruct (readyState s); simplify_eq; by apply (well_formed_same h).
  - destruct (sockets h !! ws) as [s|] eqn:Hs; [|done].
    assert (well_formed options (onclose options (ws_scope s)
                                   (update_socket ws CLOSED h))).
    { apply onclose_well_formed;
        [|by apply update_socket_well_formed].
      by apply (proj1 (Forall_lookup _ _) Hsock ws s). }
    destruct (readyState s); by simplify_eq.
  - destruct (timers h !! t) as [tm|] eqn:Ht; [|done].
    destruct (timer_state tm); simplify_eq.
    destruct (proj1 (Forall_lookup _ _) Htm t tm Ht) as ([_ Hrc] & _).
    unfold reconnect. apply connect_well_formed; [done|].
    assert (Hfired : well_formed options
                       (set_timers (alter fire_timer t (timers h)) h)).
    { by apply alter_timer_well_formed. }
    destruct Hfired as (_ & Hws' & Ht' & Hr' & Hs' & Htm').
    unfold well_formed. simpl. repeat split; try done. lia.
  - simplify_eq. by apply disconnect_well_formed.
  - simplify_eq. unfold sendMessage.
    repeat case_match; by apply (well_formed_same h).
Qed.

Lemma run_well_formed (events : list Event) (h h' : Hook) :
  run options JSON_parse events h = Some h' ->
  well_formed options h -> well_formed options h'.
Proof.
  revert h. induction events as [|e events IH]; intros h Hrun Hwf.
  - simpl in Hrun. by simplify_eq.
  - simpl in Hrun.
    destruct (step options JSON_parse h e) as [h1|] eqn:Hstep; [|done].
    apply (IH h1); [done|]. by apply (step_well_formed h h1 e).
Qed.

(** X16. In every state the hook can reach, the two refs name a stream and
    a timer that exist, [reconnectCount] is not negative, every stream was
    made by the [connect] of a render that saw an authenticated user, and
    every timer was set by a close handler whose own count was below
    [maxReconnectAttempts], with the delay [reconnectInterval]. *)
Theorem reachable_states_are_well_formed (authenticated : bool)
    (storage : gmap string string) (events : list Event) (h : Hook) :
  run options JSON_parse events (initial authenticated storage) = Some h ->
  well_formed options h.
Proof.
  assert (Hinit : well_formed options (initial authenticated storage)).
  { unfold well_formed. simpl. repeat split; try done. }
  revert Hinit. generalize (initial authenticated storage) as h0.
  induction events as [|e events IH]; intros h0 Hwf Hrun; simpl in Hrun.
  - by simplify_eq.
  - destruct (step options JSON_parse h0 e) as [h1|] eqn:Hstep; [|done].
    apply (IH h1); [|done]. by apply (step_well_formed h0 h1 e).
Qed.

End shape.

(** X17. [disconnect] by itself: it cancels the timer that
    [reconnectTimeoutRef] holds and no other, starts closing the stream
    that [wsRef] holds and no other, and empties [wsRef].  It sets no
    timer, logs nothing and leaves [isConnected] as it is (that changes
    with the close event); a second call changes nothing. *)
Theorem disconnect_by_itself (h : Hook) :
  disconnect (disconnect h) = disconnect h /\
  wsRef (disconnect h) = None /\
  length (timers (disconnect h)) = length (timers h) /\
  length (sockets (disconnect h)) = length (sockets h) /\
  (forall t, reconnectTimeoutRef h = Some t ->
     timer_state <$> timers (disconnect h) !! t <> Some Pending) /\
  (forall t, reconnectTimeoutRef h <> Some t ->
     timers (disconnect h) !! t = timers h !! t) /\
  (forall ws, wsRef h = Some ws ->
     sockets (disconnect h) !! ws = close_socket <$> sockets h !! ws) /\
  (forall ws, wsRef h <> Some ws ->
     sockets (disconnect h) !! ws = sockets h !! ws) /\
  effects (disconnect h) = effects h /\
  isConnected (disconnect h) = isConnected h.
Proof.
  split; [apply disconnect_idempotent|].
  destruct h as [ic rc wr tr au rd ss ts ls ef]. unfold disconnect. simpl.
  destruct tr as [t|], wr as [w|]; simpl; rewrite ?length_alter;
    repeat split; try done; intros i Hi; simplify_eq;
    rewrite ?list_lookup_alter_eq;
    try (rewrite list_lookup_alter_ne by congruence); try done;
    destruct (ts !! i) as [tm|]; try done; simpl; unfold clear_timer;
    by destruct (timer_state tm) eqn:Hst; simpl; rewrite ?Hst.
Qed.

(** X23. When a stream opens, it is the stream in [wsRef]: a
    [sendMessage] made from [onConnect], as [useAutomations] does to ask
    for the list of automations, is transmitted on the stream that has
    just opened and is never dropped. *)
Theorem message_on_open_is_sent (options : Options)
    (JSON_parse : string -> option Json) (authenticated : bool)
    (storage : gmap string string) (events : list Event) (h h' : Hook)
    (ws : nat) (message : Json) :
  run options JSON_parse events (initial authenticated storage) = Some h ->
  step options JSON_parse h (WsOpen ws) = Some h' ->
  wsRef h' = Some ws /\
  readyState <$> sockets h' !! ws = Some OPEN /\
  sendMessage message h' = emit (ws_send ws message) h'.
Proof.
  intros Hrun Hstep.
  assert (Hone : one_stream h).
  { apply (run_one_stream options JSON_parse events _ _ Hrun).
    by intros i s Hi. }
  simpl in Hstep. destruct (sockets h !! ws) as [s|] eqn:Hs; [|done].
  destruct (readyState s) eqn:Hconn; simplify_eq.
  assert (Hws : wsRef h = Some ws) by (apply (Hone ws s Hs); by left).
  destruct (onopen_fields options (ws_scope s) (update_socket ws OPEN h))
    as (_ & _ & _ & _ & Hsock & _ & Hws' & _).
  simpl in Hsock, Hws'.
  assert (Hlook : sockets (onopen options (ws_scope s)
                             (update_socket ws OPEN h)) !! ws
                  = Some (set_readyState OPEN s)).
  { by rewrite Hsock, list_lookup_alter_eq, Hs. }
  split; [by rewrite Hws'|]. split; [by rewrite Hlook|].
  unfold sendMessage. by rewrite Hws', Hws, Hlook.
Qed.

Lemma message_on_open_is_sent_witness :
  exists h h',
    run defaults parse_literals
      [Render; WsClose 0%nat; TimerFire 0%nat; Render] signed_in = Some h /\
    step defaults parse_literals h (WsOpen 2%nat) = Some h' /\
    sendMessage JNull h' = emit (ws_send 2%nat JNull) h'.
Proof.
  exists (default signed_in
            (run defaults parse_literals
               [Render; WsClose 0%nat; TimerFire 0%nat; Render] signed_in)).
  exists (default signed_in
            (run defaults parse_literals
               [Render; WsClose 0%nat; TimerFire 0%nat; Render; WsOpen 2%nat]
               signed_in)).
  split; [vm_compute; reflexivity|]. split; [vm_compute; reflexivity|].
  apply (message_on_open_is_sent defaults parse_literals true
           {[ "access_token" := "A1" ]}
           [Render; WsClose 0%nat; TimerFire 0%nat; Render]
           (default signed_in
              (run defaults parse_literals
                 [Render; WsClose 0%nat; TimerFire 0%nat; Render]
                 signed_in))).
  - vm_compute. reflexivity.
  - vm_compute. reflexivity.
Defined.

Lemma unsent_message_is_not_queued_witness :
  exists h h',
    run defaults parse_literals [Render] signed_in = Some h /\
    run defaults parse_literals [WsOpen 0%nat; CallDisconnect]
      (sendMessage JNull h) = Some h' /\
    sendMessage JNull h = emit (console_warn "WebSocket not connected") h.
Proof.
  exists (default signed_in (run defaults parse_literals [Render] signed_in)).
  exists (default signed_in
            (run defaults parse_literals
               [Render; CallSendMessage JNull; WsOpen 0%nat; CallDisconnect]
               signed_in)).
  split; [vm_compute; reflexivity|]. split; [vm_compute; reflexivity|].
  apply (unsent_message_is_not_queued defaults parse_literals JNull
           (default signed_in
              (run defaults parse_literals [Render] signed_in))
           (default signed_in
              (run defaults parse_literals
                 [Render; CallSendMessage JNull; WsOpen 0%nat;
                  CallDisconnect] signed_in))
           [WsOpen 0%nat; CallDisconnect]).
  - intros ws s Hws Hs. vm_compute in Hws. simplify_eq.
    vm_compute in Hs. by simplify_eq.
  - reflexivity.
  - vm_compute. reflexivity.
Defined.


Lemma open_after_retry_is_replaced_witness :
  exists h h',
    run defaults parse_literals
      [Render; WsClose 0%nat; TimerFire 0%nat; Render] signed_in = Some h /\
    run defaults parse_literals [WsOpen 2%nat; Render] h = Some h' /\
    readyState <$> sockets h' !! 2%nat = Some CLOSING /\
    isConnected h' = true.
Proof.
  exists (default signed_in
            (run defaults parse_literals
               [Render; WsClose 0%nat; TimerFire 0%nat; Render] signed_in)).
  destruct (open_after_retry_is_replaced defaults parse_literals
              (default signed_in
                 (run defaults parse_literals
                    [Render; WsClose 0%nat; TimerFire 0%nat; Render]
                    signed_in))
              2%nat
              {| ws_url := "ws://localhost:8000/ws/dashboard/?token=A1";
                 readyState := CONNECTING;
                 ws_scope := {| scope_isAuthenticated := true;
                                scope_reconnectCount := 1%Z |} |}
              1%Z)
    as (h' & Hrun & _ & Hconn & Hclosing & _);
    [vm_compute; reflexivity | vm_compute; reflexivity
    | vm_compute; reflexivity | vm_compute; reflexivity
    | vm_compute; reflexivity |].
  exists h'. split; [vm_compute; reflexivity|].
  split; [exact Hrun|]. split; [exact Hclosing | exact Hconn].
Defined.

Lemma stream_comes_back_after_sign_out_witness :
  exists h h1 h',
    run defaults parse_literals [Render; WsOpen 0%nat] signed_in = Some h /\
    run defaults parse_literals [StoreAuth false; Render] h = Some h1 /\
    run defaults parse_literals [WsClose 0%nat; TimerFire 0%nat] h1
      = Some h' /\
    store_isAuthenticated h' = false /\ status h' = Connecting.
Proof.
  exists (default signed_in
            (run defaults parse_literals [Render; WsOpen 0%nat] signed_in)).
  destruct (stream_comes_back_after_sign_out defaults parse_literals
              (default signed_in
                 (run defaults parse_literals [Render; WsOpen 0%nat]
                    signed_in))
              0%nat
              {| ws_url := "ws://localhost:8000/ws/dashboard/?token=A1";
                 readyState := OPEN; ws_scope := first_scope |}
              first_scope)
    as (h1 & h' & Hrun1 & _ & _ & _ & Hrun & Hout & _ & _ & Hstatus);
    [vm_compute; reflexivity | vm_compute; reflexivity
    | vm_compute; reflexivity | vm_compute; reflexivity
    | vm_compute; reflexivity | vm_compute; reflexivity
    | vm_compute; reflexivity |].
  exists h1, h'. split; [vm_compute; reflexivity|]. split; [exact Hrun1|].
  split; [exact Hrun|]. split; [exact Hout | exact Hstatus].
Defined.

Lemma late_close_hides_open_stream_witness :
  exists h h',
    run defaults parse_literals recovered signed_in = Some h /\
    step defaults parse_literals h (WsClose 2%nat) = Some h' /\
    isConnected h' = false /\
    readyState <$> sockets h' !! 3%nat = Some OPEN.
Proof.
  exists (default signed_in
            (run defaults parse_literals recovered signed_in)).
  destruct (late_close_hides_open_stream defaults parse_literals
              (default signed_in
                 (run defaults parse_literals recovered signed_in))
              3%nat 2%nat
              {| ws_url := "ws://localhost:8000/ws/dashboard/?token=A1";
                 readyState := OPEN; ws_scope := first_scope |}
              {| ws_url := "ws://localhost:8000/ws/dashboard/?token=A1";
                 readyState := CLOSING;
                 ws_scope := {| scope_isAuthenticated := true;
                                scope_reconnectCount := 1%Z |} |}
              JNull)
    as (h' & Hstep & Hconn & _ & Hlook & _);
    [vm_compute; reflexivity | vm_compute; reflexivity | reflexivity
    | discriminate | vm_compute; reflexivity | discriminate |].
  exists h'. split; [vm_compute; reflexivity|]. split; [exact Hstep|].
  split; [exact Hconn|]. by rewrite Hlook.
Defined.

Lemma reachable_states_are_well_formed_witness :
  well_formed scenario_C
    (default signed_in
       (run scenario_C parse_literals failing_streams signed_in)).
Proof.
  apply (reachable_states_are_well_formed scenario_C parse_literals true
           {[ "access_token" := "A1" ]} failing_streams).
  vm_compute. reflexivity.
Defined.

End UseWebSocketMore.

(* ===================================================================== *)
(** ** useWebSocket: what the gate of [connect] tests *)
(* ===================================================================== *)

Module UseWebSocketGate.
Import UseWebSocket UseWebSocketProofs HookShape UseWebSocketMore.

(** The effect of a render that sees the flag false: at most the cleanup
    of the render before it runs, and [connect] is not called. *)
Lemma render_unauthenticated (options : Options) (h : Hook) :
  store_isAuthenticated h = false ->
  render options h = h \/
  render options h =
    set_rendered (Some (mkScope false (reconnectCount h))) h \/
  render options h =
    set_rendered (Some (mkScope false (reconnectCount h))) (disconnect h).
Proof.
  intros Hout. unfold render. rewrite Hout. cbn [scope_isAuthenticated].
  destruct (rendered h) as [previous|]; [|by right; left].
  case_decide; [by left | by right; right].
Qed.

(** C9, as stated, fails.  The store says that the user is authenticated
    and [localStorage] holds no access value: the mount calls [connect],
    which reads the value, does not test it, and opens a stream towards
    [?token=null].  The status is [Connecting], not [Idle]. *)
Lemma connect_without_access_value :
  localStorage (initial true ∅) !! "access_token" = None /\
  exists h,
    run defaults parse_literals [Render] (initial true ∅) = Some h /\
    h = connect defaults first_scope
          (set_rendered (Some first_scope) (initial true ∅)) /\
    (ws_url <$> sockets h)
      = ["ws://localhost:8000/ws/dashboard/?token=null"] /\
    (readyState <$> sockets h) = [CONNECTING] /\
    status h = Connecting.
Proof.
  split; [reflexivity|].
  exists (connect defaults first_scope
            (set_rendered (Some first_scope) (initial true ∅))).
  vm_compute. repeat split.
Qed.

(** C9, as the hook behaves.  The gate of [connect] is the flag
    [isAuthenticated] of the render that made it, and nothing else.
    [connect] of a render that saw the flag false returns at once, and the
    hook never makes that call: the effect of such a render opens no
    stream, sets no timer and logs nothing, and every stream of the hook
    was made by the [connect] of a render that saw the flag true.  A hook
    mounted for a signed-out user stays idle, without any stream, as long
    as the store does not report an authenticated user.  The access value
    is not tested: with the flag true the mount opens a stream whatever
    [localStorage] holds, with the text "null" for a value that is
    missing. *)
Theorem connect_is_gated_by_the_store_flag (options : Options)
    (JSON_parse : string -> option Json) :
  (forall sc h, scope_isAuthenticated sc = false ->
     connect options sc h = h) /\
  (forall h, store_isAuthenticated h = false ->
     length (sockets (render options h)) = length (sockets h) /\
     length (timers (render options h)) = length (timers h) /\
     effects (render options h) = effects h /\
     (status h = Idle -> status (render options h) = Idle)) /\
  (forall storage events h,
     forallb (fun e => negb (signs_in e)) events = true ->
     run options JSON_parse events (initial false storage) = Some h ->
     sockets h = [] /\ status h = Idle) /\
  (forall authenticated storage events h,
     run options JSON_parse events (initial authenticated storage) = Some h ->
     Forall (fun s => scope_isAuthenticated (ws_scope s) = true)
       (sockets h)) /\
  (forall storage,
     let h := render options (initial true storage) in
     (ws_url <$> sockets h)
       = [url options +:+ "?token=" +:+
          js_string "null" (storage !! "access_token")] /\
     (readyState <$> sockets h) = [CONNECTING] /\
     status h = Connecting).
Proof.
  split; [|split; [|split; [|split]]].
  - intros sc h Hno. by apply connect_unauthenticated.
  - intros h Hout.
    assert (Hlen : length (sockets (disconnect h)) = length (sockets h) /\
                   length (timers (disconnect h)) = length (timers h) /\
                   effects (disconnect h) = effects h).
    { unfold disconnect.
      destruct (reconnectTimeoutRef h), (wsRef h) eqn:Hw; simpl;
        rewrite ?Hw; simpl; by rewrite ?length_alter. }
    destruct Hlen as (Hs & Ht & He).
    assert (Hidle : forall h1 h2 : Hook,
              length (sockets h2) = length (sockets h1) ->
              status h1 = Idle -> status h2 = Idle).
    { intros h1 h2 Hl. unfold status.
      destruct (sockets h1) as [|s1 l1] using rev_ind.
      - destruct (sockets h2); [done|discriminate].
      - rewrite last_snoc. by destruct (readyState s1). }
    destruct (render_unauthenticated options h Hout) as [->|[->| ->]];
      simpl; repeat split; try done.
    by apply (Hidle h (disconnect h)).
  - intros storage events h Hout Hrun.
    by eapply signed_out_stays_idle.
  - intros authenticated storage events h Hrun.
    assert (Hwf : well_formed options h).
    { apply (run_well_formed options JSON_parse events
               (initial authenticated storage) h Hrun).
      unfold well_formed. simpl. repeat split; done. }
    destruct Hwf as (_ & _ & _ & _ & Hsock & _).
    eapply Forall_impl; [exact Hsock|]. by intros s [Hauth _].
  - intros storage. done.
Qed.

End UseWebSocketGate.

(* ===================================================================== *)
(** ** Properties of the theme and ui slices *)
(* ===================================================================== *)

Module SliceProofs.

Section theme.
Import ThemeSlice.

Lemma getSavedTheme_saved (m : string) (b : Browser) :
  m <> "" -> storage b !! "theme" = Some m -> getSavedTheme b = m.
Proof.
  intros Hne Hm. unfold getSavedTheme. rewrite Hm. simpl.
  by apply String.eqb_neq in Hne as ->.
Qed.

(** X18. The mode that [toggleTheme] or [setTheme] leaves is the mode the
    application starts with at the next load, whatever the system
    preference is then: the value written to [localStorage] is read back
    by [getSavedTheme].  (For [setTheme] the payload must not be the empty
    text, which reads back as "nothing saved".) *)
Theorem saved_theme_is_restored (a : Action) (st : ThemeState)
    (b reload : Browser) :
  saves a ->
  storage reload = storage (reducer (st, b) a).2 ->
  getSavedTheme reload = mode (reducer (st, b) a).1 /\
  mode (initialState reload) = mode (reducer (st, b) a).1.
Proof.
  intros Hsaves Hstorage.
  assert (Hread : getSavedTheme reload = mode (reducer (st, b) a).1).
  { destruct a as [|payload|payload]; [| |done]; simpl in *.
    - apply getSavedTheme_saved; [by destruct (String.eqb _ _)|].
      rewrite Hstorage. apply lookup_insert_eq.
    - apply getSavedTheme_saved; [done|].
      rewrite Hstorage. apply lookup_insert_eq. }
  by split.
Qed.

Lemma saved_theme_is_restored_witness :
  let st := {| mode := "light"; systemPreference := "light" |} in
  let b := {| storage := ∅; classList := ∅; prefers_dark := false |} in
  getSavedTheme (reducer (st, b) ToggleTheme).2 = "dark".
Proof.
  apply (saved_theme_is_restored ToggleTheme
           {| mode := "light"; systemPreference := "light" |}
           {| storage := ∅; classList := ∅; prefers_dark := false |});
    [exact I | reflexivity].
Defined.

Lemma toggle_dark_class (m : string) (classes : gset string) :
  ("dark" ∈ classList_toggle "dark" (String.eqb m "dark") classes
     <-> m = "dark") /\
  (forall c, c <> "dark" ->
     c ∈ classList_toggle "dark" (String.eqb m "dark") classes
       <-> c ∈ classes).
Proof.
  unfold classList_toggle.
  destruct (String.eqb_spec m "dark") as [->|Hne].
  - split; [|intros c Hc]; rewrite elem_of_union, elem_of_singleton;
      tauto.
  - split; [|intros c Hc]; rewrite elem_of_difference, elem_of_singleton;
      [|tauto].
    split; [by intros [_ Hno]|done].
Qed.

(** X19. Once the effect of [useTheme] has run, the class [dark] is on the
    document exactly when the mode is "dark", and every action of the
    slice keeps it so; no other class is ever added or removed. *)
Theorem dark_class_follows_mode (actions : list Action) (st : ThemeState)
    (b : Browser) :
  let final := foldl reducer (st, useTheme_effect st b) actions in
  ("dark" ∈ classList final.2 <-> mode final.1 = "dark") /\
  (forall c, c <> "dark" -> c ∈ classList final.2 <-> c ∈ classList b).
Proof.
  cbv zeta.
  assert (Hstart :
    ("dark" ∈ classList (st, useTheme_effect st b).2
       <-> mode (st, useTheme_effect st b).1 = "dark") /\
    (forall c, c <> "dark" ->
       c ∈ classList (st, useTheme_effect st b).2 <-> c ∈ classList b)).
  { simpl. apply toggle_dark_class. }
  revert Hstart. generalize (st, useTheme_effect st b) as sb.
  induction actions as [|a actions IH]; intros sb Hsb; [done|].
  simpl. apply IH. destruct Hsb as [Hdark Hrest].
  destruct a as [|payload|payload]; simpl.
  - destruct (toggle_dark_class
                (if String.eqb (mode sb.1) "light" then "dark" else "light")
                (classList sb.2)) as [H1 H2].
    split; [done|]. intros c Hc. by rewrite H2, Hrest.
  - destruct (toggle_dark_class payload (classList sb.2)) as [H1 H2].
    split; [done|]. intros c Hc. by rewrite H2, Hrest.
  - done.
Qed.

(** X20. [toggleTheme] always leaves one of the two modes: "light"
    becomes "dark", and everything else, an unknown saved text included,
    becomes "light"; the mode it leaves is the one it saves.  From a mode
    that is one of the two, toggling twice gives the mode back, in the
    state and in the store. *)
Theorem toggle_alternates (st : ThemeState) (b : Browser) :
  valid_mode (mode st) ->
  let once := toggleTheme st b in
  let twice := toggleTheme once.1 once.2 in
  valid_mode (mode once.1) /\ mode once.1 <> mode st /\
  mode twice.1 = mode st /\
  storage twice.2 !! "theme" = Some (mode st) /\
  (forall st' b', valid_mode (mode (toggleTheme st' b').1)) /\
  (forall st' b',
     (mode st' = "light" -> mode (toggleTheme st' b').1 = "dark") /\
     (mode st' <> "light" -> mode (toggleTheme st' b').1 = "light") /\
     storage (toggleTheme st' b').2 !! "theme"
       = Some (mode (toggleTheme st' b').1)).
Proof.
  intros Hvalid. cbv zeta. split; [|split; [|split; [|split; [|split]]]].
  - simpl. destruct (String.eqb _ _); [by right|by left].
  - destruct Hvalid as [H|H]; simpl; by rewrite H.
  - destruct Hvalid as [H|H]; simpl; by rewrite H.
  - simpl. rewrite lookup_insert_eq.
    destruct Hvalid as [H|H]; by rewrite H.
  - intros st' b'. simpl. destruct (String.eqb _ _); [by right|by left].
  - intros st' b'. split; [|split].
    + intros Hlight. simpl. by rewrite Hlight.
    + intros Hother. simpl.
      destruct (String.eqb (mode st') "light") eqn:Heq; [|done].
      by apply String.eqb_eq in Heq.
    + simpl. apply lookup_insert_eq.
Qed.

Lemma toggle_alternates_witness :
  let st := {| mode := "dark"; systemPreference := "light" |} in
  let b := {| storage := ∅; classList := ∅; prefers_dark := false |} in
  mode (toggleTheme (toggleTheme st b).1 (toggleTheme st b).2).1 = "dark" /\
  mode (toggleTheme {| mode := "sepia"; systemPreference := "light" |} b).1
    = "light".
Proof.
  destruct (toggle_alternates
              {| mode := "dark"; systemPreference := "light" |}
              {| storage := ∅; classList := ∅; prefers_dark := false |})
    as (_ & _ & Htwice & _ & _ & Hany); [by right|].
  split; [exact Htwice|].
  destruct (Hany {| mode := "sepia"; systemPreference := "light" |}
              {| storage := ∅; classList := ∅; prefers_dark := false |})
    as (_ & Hother & _).
  apply Hother. discriminate.
Defined.

End theme.

Section ui.
Import UiSlice.

Lemma filter_keeps_all {A : Type} (P : A -> Prop) `{forall x, Decision (P x)}
    (l : list A) :
  Forall P l -> filter P l = l.
Proof.
  induction 1 as [|x l Hx Hl IH]; [done|].
  by rewrite filter_cons_True, IH.
Qed.

(** X21. A notification that is added and then removed by its id leaves
    the state as it was, provided no notification already carried that
    id. *)
Theorem remove_after_add (now : Z) (kind text : string) (st : UIState) :
  Forall (fun n => id n <> pretty now) (notifications st) ->
  removeNotification (pretty now) (addNotification now kind text st) = st.
Proof.
  intros Hfresh. unfold removeNotification, addNotification. simpl.
  rewrite filter_app, filter_keeps_all by done.
  rewrite filter_cons_False by (simpl; by intros Hne).
  rewrite filter_nil, app_nil_r. by destruct st.
Qed.

Lemma remove_after_add_witness :
  removeNotification (pretty 1700000000000%Z)
    (addNotification 1700000000000%Z "info" "saved" initialState)
  = initialState.
Proof.
  apply (remove_after_add 1700000000000%Z "info" "saved" initialState).
  constructor.
Defined.

(** X22. The id of a notification is the millisecond it was added in.
    Two notifications added within the same millisecond share their id,
    and removing either removes both; added at different times they have
    different ids, and removing the first keeps the second. *)
Theorem same_millisecond_same_id (now later : Z)
    (kind1 text1 kind2 text2 : string) (st : UIState) :
  removeNotification (pretty now)
    (addNotification now kind2 text2 (addNotification now kind1 text1 st))
  = removeNotification (pretty now) st /\
  (now <> later ->
   removeNotification (pretty now)
     (addNotification later kind2 text2
        (addNotification now kind1 text1 st))
   = addNotification later kind2 text2
       (removeNotification (pretty now) st)).
Proof.
  unfold removeNotification, addNotification. simpl. split.
  - rewrite !filter_app.
    rewrite !filter_cons_False by (simpl; by intros Hne).
    by rewrite filter_nil, !app_nil_r.
  - intros Hne. rewrite !filter_app.
    rewrite filter_cons_False by (simpl; by intros Hn).
    rewrite filter_cons_True.
    + by rewrite !filter_nil, app_nil_r.
    + simpl. intros Heq. apply Hne. symmetry. by apply (inj pretty).
Qed.

End ui.

End SliceProofs.
